(** * The reasoning loop of the RLM demo (src/app.py)

    A shallow embedding of [StreamlitLogger] and of [StreamlitRLM_REPL]:
    [setup_context], [completion] and [_process_code_with_logging].

    Python text is a sequence of Unicode code points, so that [len] and
    slicing count what Python counts.  The object [self] is a record that
    is threaded through every method; an exception leaves the object as
    it was when it was raised.  What app.py imports from the [rlm]
    package (the LLM client, the REPL environment, the prompt templates,
    the helpers of [rlm.utils.utils]) is an interface, the class
    [Collaborators]; every statement about the loop holds for all of its
    instances, and [Demo] is one small instance to run the loop on. *)

From Stdlib Require Import List ZArith NArith Lia String Ascii Bool DecimalString.
From Stdlib Require Floats Uint63.
Import ListNotations.

Set Implicit Arguments.

(** ** Python text *)

Module Py.

Definition char : Type := N.
Definition str : Type := list char.

(** An ASCII literal of the source. *)
Definition lit (s : string) : str :=
  map N_of_ascii (list_ascii_of_string s).

(** The escape [\n]. *)
Definition nl : str := [10%N].

(** [len(s)] and [s[:n]]. *)
Definition len (s : str) : nat := List.length s.
Definition upto (n : nat) (s : str) : str := firstn n s.

(** [str(n)] for a non-negative integer, as an f-string prints it. *)
Definition of_nat (n : nat) : str :=
  lit (NilEmpty.string_of_uint (Nat.to_uint n)).

(** Truth value of a text: the empty text is false. *)
Definition nonempty (s : str) : bool :=
  match s with [] => false | _ :: _ => true end.

(** Truth value of an [Optional[str]]: [None] and the empty text are false. *)
Definition truthy (o : option str) : bool :=
  match o with Some s => nonempty s | None => false end.

End Py.

Import Py.

(** A message of the conversation: the dict [{"role": .., "content": ..}]. *)
Record message : Type := Message { role : str; content : str }.

(** ** StreamlitLogger *)

Module StreamlitLogger.

(** What the logger writes to its status placeholder. *)
Inductive status_call : Type :=
| info (text : str)
| success (text : str).

(** One entry of [self.steps], by its ["type"]. *)
Inductive step : Type :=
| system_step (title content : str) (expanded : bool)
| response_step (title content : str) (has_code expanded : bool)
| code_step (title code output : str) (expanded : bool)
| final_step (title content : str) (expanded : bool).

Record t : Type := Logger {
  steps : list step;
  conversation_step : nat;
  query : str;
  status_placeholder : list status_call
}.

(** [__init__]; the two Streamlit containers are write-only, the status
    placeholder is kept as the list of what was written to it. *)
Definition init : t :=
  {| steps := []; conversation_step := 0; query := [];
     status_placeholder := [] |}.

Section Methods.

(** [str.upper], the formatting of a float with [:.3f] and the truth
    value of a float belong to Python, not to app.py. *)
Variable time : Type.
Variable upper : str -> str.
Variable format_3f : time -> str.
Variable time_truthy : time -> bool.

(** [_render] only writes the steps to the page; it changes no field. *)
Definition _render (l : t) : t := l.

Definition add_step (s : step) (l : t) : t :=
  {| steps := steps l ++ [s];
     conversation_step := conversation_step l;
     query := query l;
     status_placeholder := status_placeholder l |}.

Definition add_status (c : status_call) (l : t) : t :=
  {| steps := steps l;
     conversation_step := conversation_step l;
     query := query l;
     status_placeholder := status_placeholder l ++ [c] |}.

Definition log_query_start (q : str) (l : t) : t :=
  add_status (info ([128640%N] ++ lit " **Query:** " ++ q))
    {| steps := steps l;
       conversation_step := conversation_step l;
       query := q;
       status_placeholder := status_placeholder l |}.

(** The body of the [enumerate] loop of [log_initial_messages]. *)
Definition initial_entry (i : nat) (msg : message) : str :=
  let msg_content :=
    if 300 <? len (content msg)
    then upto 300 (content msg) ++ lit "..."
    else content msg in
  lit "**[" ++ of_nat (i + 1) ++ lit "] " ++ upper (role msg)
    ++ lit ":**" ++ nl ++ msg_content ++ nl ++ nl.

Fixpoint initial_content (i : nat) (messages : list message) : str :=
  match messages with
  | [] => []
  | msg :: rest => initial_entry i msg ++ initial_content (S i) rest
  end.

Definition log_initial_messages (messages : list message) (l : t) : t :=
  _render
    (add_step
       (system_step ([128203%N] ++ lit " System Prompt")
          (initial_content 0 messages) false) l).

Definition log_model_response (response : str) (has_tool_calls : bool)
    (l : t) : t :=
  let n := conversation_step l + 1 in
  let display_response :=
    if 800 <? len response
    then upto 800 response ++ nl ++ nl ++ lit "*... (truncated)*"
    else response in
  let status :=
    if has_tool_calls
    then [9881%N; 65039%N] ++ lit " Executing REPL code..."
    else [9989%N] ++ lit " Checking for final answer..." in
  _render
    (add_step
       (response_step
          ([129302%N] ++ lit " Step " ++ of_nat n ++ lit ": Model Response")
          display_response has_tool_calls true)
       (add_status (info (lit "Step " ++ of_nat n ++ lit ": " ++ status))
          {| steps := steps l;
             conversation_step := n;
             query := query l;
             status_placeholder := status_placeholder l |})).

Definition log_code_execution (code stdout stderr : str)
    (execution_time : time) (l : t) : t :=
  let display_code :=
    if len code <=? 500 then code
    else upto 500 code ++ nl ++ lit "# ... (truncated)" in
  let display_stdout :=
    if len stdout <=? 300 then stdout
    else upto 300 stdout ++ nl ++ lit "... (truncated)" in
  let fence := lit "```" in
  let out1 :=
    if nonempty stdout
    then lit "**Output:**" ++ nl ++ fence ++ nl ++ display_stdout ++ nl
           ++ fence ++ nl
    else [] in
  let out2 :=
    if nonempty stderr
    then lit "**Error:**" ++ nl ++ fence ++ nl ++ upto 200 stderr ++ nl
           ++ fence ++ nl
    else [] in
  let out3 :=
    if time_truthy execution_time
    then nl ++ lit "*" ++ [9201%N; 65039%N] ++ lit " "
           ++ format_3f execution_time ++ lit "s*"
    else [] in
  _render
    (add_step
       (code_step ([128187%N] ++ lit " Code Execution") display_code
          (out1 ++ out2 ++ out3) true) l).

Definition log_final_response (response : str) (l : t) : t :=
  _render
    (add_step
       (final_step ([127919%N] ++ lit " FINAL ANSWER") response true)
       (add_status
          (success ([127919%N] ++ lit " **Final answer found!**")) l)).

End Methods.

End StreamlitLogger.

(** ** What app.py imports *)

(** [result.stdout], [result.stderr] and [result.execution_time] of what
    [REPLEnv.code_execution] returns. *)
Record REPLResult (time : Type) : Type := Result {
  stdout : str;
  stderr : str;
  execution_time : time
}.

(** The interface of the [rlm] package as app.py uses it.  A REPL
    environment and an LLM client have a state of their own, which a
    call may change; packaging a context and requesting a completion may
    fail, with a fault that app.py does not catch; the other functions
    return (the environment reports a failing fragment in the stderr of
    its result).
    The third argument of [next_action_prompt] is its keyword argument
    [final_answer]: [None] in the call that leaves it out, [Some true]
    in the call that passes [final_answer=True].
    [check_for_final_answer_unbound] is the answer of
    [check_for_final_answer] when it is handed [None] for the
    environment, which [completion] never does: [setup_context] binds
    [self.repl_env] before the loop.
    [upper], [format_3f] and [time_truthy] are Python's [str.upper],
    the format [:.3f] and the truth value of a float, which the logger
    uses. *)
Class Collaborators : Type := {
  time : Type;
  upper : str -> str;
  format_3f : time -> str;
  time_truthy : time -> bool;
  DEFAULT_QUERY : str;
  build_system_prompt : list message;
  next_action_prompt : option str -> nat -> option bool -> message;
  raw_context : Type;
  context_data : Type;
  context_str : Type;
  packaging_fault : Type;
  convert_context_for_repl :
    raw_context -> packaging_fault + (context_data * context_str);
  env : Type;
  REPLEnv : context_data -> context_str -> str -> env;
  code_execution : env -> str -> env * REPLResult time;
  find_code_blocks : str -> option (list str);
  check_for_final_answer : str -> env -> env * option str;
  check_for_final_answer_unbound : str -> option str;
  client : Type;
  transport_fault : Type;
  OpenAIClient : option str -> str -> client;
  llm_completion :
    client -> list message -> client * (transport_fault + str)
}.

(** ** StreamlitRLM_REPL *)

Module StreamlitRLM_REPL.

Section Model.

Context {C : Collaborators}.

(** What a run can raise: the use of a local variable that was never
    bound (a [NameError]), an attribute looked up on [None], and the
    faults of the packager and of the transport. *)
Inductive exn : Type :=
| UnboundLocalError (name : str)
| AttributeError (attribute : str)
| PackagingFault (e : packaging_fault)
| TransportFault (e : transport_fault).

Definition is_NameError (e : exn) : bool :=
  match e with UnboundLocalError _ => true | _ => false end.

Inductive result (A : Type) : Type :=
| Ok (a : A)
| Raise (e : exn).

Arguments Ok {A} a.
Arguments Raise {A} e.

(** A call to a collaborator whose state the call may change. *)
Inductive call : Type :=
| llm_call (request : list message)
| exec_call (code : str)
| check_call (response : str).

(** The attributes of [self], and [history]: the calls made so far to
    the LLM client and to the REPL environment, oldest first. *)
Record state : Type := State {
  api_key : option str;
  model : str;
  recursive_model : str;
  llm : client;
  repl_env : option env;
  depth : Z;
  _max_iterations : Z;
  st_logger : StreamlitLogger.t;
  messages : list message;
  query : option str;
  history : list call
}.

Definition __init__ (streamlit_logger : StreamlitLogger.t)
    (api_key : option str) (model recursive_model : str)
    (max_iterations : Z) : state :=
  {| api_key := api_key; model := model;
     recursive_model := recursive_model;
     llm := OpenAIClient api_key model;
     repl_env := None; depth := 0; _max_iterations := max_iterations;
     st_logger := streamlit_logger;
     messages := []; query := None; history := [] |}.

Definition set_llm (c : client) (s : state) : state :=
  {| api_key := api_key s; model := model s;
     recursive_model := recursive_model s; llm := c;
     repl_env := repl_env s; depth := depth s;
     _max_iterations := _max_iterations s; st_logger := st_logger s;
     messages := messages s; query := query s; history := history s |}.

Definition set_repl_env (e : option env) (s : state) : state :=
  {| api_key := api_key s; model := model s;
     recursive_model := recursive_model s; llm := llm s;
     repl_env := e; depth := depth s;
     _max_iterations := _max_iterations s; st_logger := st_logger s;
     messages := messages s; query := query s; history := history s |}.

Definition set_st_logger (l : StreamlitLogger.t) (s : state) : state :=
  {| api_key := api_key s; model := model s;
     recursive_model := recursive_model s; llm := llm s;
     repl_env := repl_env s; depth := depth s;
     _max_iterations := _max_iterations s; st_logger := l;
     messages := messages s; query := query s; history := history s |}.

Definition set_messages (m : list message) (s : state) : state :=
  {| api_key := api_key s; model := model s;
     recursive_model := recursive_model s; llm := llm s;
     repl_env := repl_env s; depth := depth s;
     _max_iterations := _max_iterations s; st_logger := st_logger s;
     messages := m; query := query s; history := history s |}.

Definition set_query (q : option str) (s : state) : state :=
  {| api_key := api_key s; model := model s;
     recursive_model := recursive_model s; llm := llm s;
     repl_env := repl_env s; depth := depth s;
     _max_iterations := _max_iterations s; st_logger := st_logger s;
     messages := messages s; query := q; history := history s |}.

Definition record_call (c : call) (s : state) : state :=
  {| api_key := api_key s; model := model s;
     recursive_model := recursive_model s; llm := llm s;
     repl_env := repl_env s; depth := depth s;
     _max_iterations := _max_iterations s; st_logger := st_logger s;
     messages := messages s; query := query s;
     history := history s ++ [c] |}.

(** *** Methods run on the object and return or raise *)

Definition M (A : Type) : Type := state -> result A * state.

Definition ret {A : Type} (a : A) : M A := fun s => (Ok a, s).

Definition raise {A : Type} (e : exn) : M A := fun s => (Raise e, s).

Definition bind {A B : Type} (m : M A) (k : A -> M B) : M B :=
  fun s =>
    match m s with
    | (Ok a, s') => k a s'
    | (Raise e, s') => (Raise e, s')
    end.

Definition get : M state := fun s => (Ok s, s).

Definition modify (f : state -> state) : M unit := fun s => (Ok tt, f s).

Notation "x <- c1 ;; c2" := (bind c1 (fun x => c2))
  (at level 61, c1 at next level, right associativity).
Notation "c1 ;; c2" := (bind c1 (fun _ => c2))
  (at level 61, right associativity).

(** A call of a method of [self.st_logger]. *)
Definition log (f : StreamlitLogger.t -> StreamlitLogger.t) : M unit :=
  modify (fun s => set_st_logger (f (st_logger s)) s).

(** [self.messages.append(m)] *)
Definition messages_append (m : message) : M unit :=
  modify (fun s => set_messages (messages s ++ [m]) s).

(** [self.llm.completion(request)] *)
Definition llm_request (request : list message) : M str :=
  fun s =>
    let (c, r) := llm_completion (llm s) request in
    let s' := record_call (llm_call request) (set_llm c s) in
    match r with
    | inl e => (Raise (TransportFault e), s')
    | inr text => (Ok text, s')
    end.

(** [self.repl_env.code_execution(code)] *)
Definition repl_code_execution (code : str) : M (REPLResult time) :=
  fun s =>
    match repl_env s with
    | None => (Raise (AttributeError (lit "code_execution")), s)
    | Some e =>
        let (e', r) := code_execution e code in
        (Ok r, record_call (exec_call code) (set_repl_env (Some e') s))
    end.

(** [utils.check_for_final_answer(response, self.repl_env, None)] *)
Definition final_answer_check (response : str) : M (option str) :=
  fun s =>
    let s' := record_call (check_call response) s in
    match repl_env s with
    | None => (Ok (check_for_final_answer_unbound response), s')
    | Some e =>
        let (e', a) := check_for_final_answer response e in
        (Ok a, set_repl_env (Some e') s')
    end.

(** *** setup_context *)

Definition setup_context (context : raw_context) (query : option str)
    : M (list message) :=
  let query := match query with None => DEFAULT_QUERY | Some q => q end in
  modify (set_query (Some query)) ;;
  log (StreamlitLogger.log_query_start query) ;;
  modify (set_messages build_system_prompt) ;;
  s <- get ;;
  log (StreamlitLogger.log_initial_messages upper (messages s)) ;;
  match convert_context_for_repl context with
  | inl e => raise (PackagingFault e)
  | inr (context_data, context_str) =>
      s <- get ;;
      modify (set_repl_env
                (Some (REPLEnv context_data context_str
                         (recursive_model s)))) ;;
      s <- get ;;
      ret (messages s)
  end.

(** *** _process_code_with_logging *)

Definition truncated_stdout (r : REPLResult time) : str :=
  if 2000 <? len (stdout r) then upto 2000 (stdout r) else stdout r.

Definition truncated_stderr (r : REPLResult time) : str :=
  if 500 <? len (stderr r) then upto 500 (stderr r) else stderr r.

Definition tool_response (r : REPLResult time) : message :=
  {| role := lit "user";
     content :=
       lit "REPL environment returned:" ++ nl ++ lit "stdout: "
         ++ truncated_stdout r ++ nl ++ lit "stderr: "
         ++ truncated_stderr r |}.

(** The loop over [code_blocks]. *)
Fixpoint process_blocks (code_blocks : list str) : M unit :=
  match code_blocks with
  | [] => ret tt
  | code_block :: rest =>
      r <- repl_code_execution code_block ;;
      log (StreamlitLogger.log_code_execution format_3f time_truthy
             code_block (stdout r) (stderr r) (execution_time r)) ;;
      messages_append (tool_response r) ;;
      process_blocks rest
  end.

(** The argument [messages] of the method is the list object
    [self.messages] at its only call, so what is appended to it is
    appended to the attribute, and the list returned is that object. *)
Definition _process_code_with_logging (response : str)
    (code_blocks : list str) : M (list message) :=
  messages_append {| role := lit "assistant"; content := response |} ;;
  process_blocks code_blocks ;;
  s <- get ;;
  ret (messages s).

(** *** completion *)

Definition is_not_None {A : Type} (o : option A) : bool :=
  match o with Some _ => true | None => false end.

(** The model request of one iteration. *)
Definition request_step (query : option str) (iteration : nat) : M str :=
  s <- get ;;
  llm_request (messages s ++ [next_action_prompt query iteration None]).

(** One pass through the body of the [for] loop, after the request:
    [Some a] when the body returns [a] from [completion], [None] when
    it reaches its end. *)
Definition fold_response (response : str) : M (option str) :=
  let code_blocks := find_code_blocks response in
  log (StreamlitLogger.log_model_response response
         (is_not_None code_blocks)) ;;
  match code_blocks with
  | Some code_blocks =>
      msgs <- _process_code_with_logging response code_blocks ;;
      modify (set_messages msgs)
  | None =>
      messages_append
        {| role := lit "assistant";
           content := lit "You responded with:" ++ nl ++ response |}
  end ;;
  final_answer <- final_answer_check response ;;
  if truthy final_answer
  then
    match final_answer with
    | Some a => log (StreamlitLogger.log_final_response a) ;; ret (Some a)
    | None => ret None
    end
  else ret None.

Definition loop_body (query : option str) (iteration : nat)
    : M (option str) :=
  response <- request_step query iteration ;;
  fold_response response.

(** How the [for] loop is left: by the [return] of its body, or at the
    end of the range with the loop variable as the last pass bound it
    ([None] when no pass ran). *)
Inductive loop_exit : Type :=
| returned (final_answer : str)
| exhausted (iteration : option nat).

Fixpoint for_iteration_in (query : option str) (indices : list nat)
    (iteration : option nat) : M loop_exit :=
  match indices with
  | [] => ret (exhausted iteration)
  | i :: rest =>
      r <- loop_body query i ;;
      match r with
      | Some final_answer => ret (returned final_answer)
      | None => for_iteration_in query rest (Some i)
      end
  end.

(** [range(n)] *)
Definition range (n : Z) : list nat := seq 0 (Z.to_nat n).

(** What follows the loop. *)
Definition after_loop (query : option str) (exit : loop_exit) : M str :=
  match exit with
  | returned final_answer => ret final_answer
  | exhausted None => raise (UnboundLocalError (lit "iteration"))
  | exhausted (Some iteration) =>
      messages_append (next_action_prompt query iteration (Some true)) ;;
      s <- get ;;
      final_answer <- llm_request (messages s) ;;
      log (StreamlitLogger.log_final_response final_answer) ;;
      ret final_answer
  end.

Definition completion (context : raw_context) (query : option str)
    : M str :=
  msgs <- setup_context context query ;;
  modify (set_messages msgs) ;;
  s <- get ;;
  exit <- for_iteration_in query (range (_max_iterations s)) None ;;
  after_loop query exit.

(** The model requests among the calls of a history, oldest first. *)
Definition llm_calls (h : list call) : list (list message) :=
  flat_map (fun c => match c with llm_call r => [r] | _ => [] end) h.

(** The results of the fragments of one response: each fragment runs in
    the environment that the fragment before it left. *)
Fixpoint run_blocks (e : env) (code_blocks : list str)
    : env * list (REPLResult time) :=
  match code_blocks with
  | [] => (e, [])
  | code_block :: rest =>
      let (e1, r) := code_execution e code_block in
      let (e2, rs) := run_blocks e1 rest in
      (e2, r :: rs)
  end.

(** The fragments of a response ([[]] when it carries none), what one
    response adds to the conversation when its fragments run from the
    environment [e], and what the final-answer check then finds: the
    environment it leaves and the answer that ends the run, if any. *)
Definition blocks_of (response : str) : list str :=
  match find_code_blocks response with
  | Some code_blocks => code_blocks
  | None => []
  end.

Definition appended (response : str) (e : env) : list message :=
  match find_code_blocks response with
  | Some code_blocks =>
      {| role := lit "assistant"; content := response |}
        :: map tool_response (snd (run_blocks e code_blocks))
  | None =>
      [ {| role := lit "assistant";
           content := lit "You responded with:" ++ nl ++ response |} ]
  end.

Definition checked (response : str) (e : env) : env * option str :=
  check_for_final_answer response (fst (run_blocks e (blocks_of response))).

Definition detected (response : str) (e : env) : option str :=
  let final_answer := snd (checked response e) in
  if truthy final_answer then final_answer else None.

(** The object after the statements of [setup_context] that come before
    the packaging of the context, and the object on entry of the loop,
    for a context that is packaged as [(context_data, context_str)]. *)
Definition prepared (query : option str) (s : state) : state :=
  let query := match query with None => DEFAULT_QUERY | Some q => q end in
  set_st_logger
    (StreamlitLogger.log_initial_messages upper build_system_prompt
       (StreamlitLogger.log_query_start query (st_logger s)))
    (set_messages build_system_prompt (set_query (Some query) s)).

Definition entered (query : option str)
    (packaged : context_data * context_str) (s : state) : state :=
  set_repl_env
    (Some (REPLEnv (fst packaged) (snd packaged) (recursive_model s)))
    (prepared query s).

(** [keeps s s']: from [s] to [s'] the query, the iteration bound and
    the query of the logger are unchanged, a bound environment stays
    bound, and the conversation and the history only grow.
    [silent s s']: moreover no model request was made. *)
Definition keeps (s s' : state) : Prop :=
  query s' = query s
  /\ _max_iterations s' = _max_iterations s
  /\ StreamlitLogger.query (st_logger s') = StreamlitLogger.query (st_logger s)
  /\ (repl_env s <> None -> repl_env s' <> None)
  /\ (exists added, messages s' = messages s ++ added)
  /\ (exists calls, history s' = history s ++ calls).

Definition silent (s s' : state) : Prop :=
  keeps s s'
  /\ llm_calls (history s') = llm_calls (history s)
  /\ llm s' = llm s.

Definition keeping {A : Type} (m : M A) : Prop :=
  forall s, keeps s (snd (m s)).

Definition quiet {A : Type} (m : M A) : Prop :=
  forall s, silent s (snd (m s)).

(** The transport never fails: every request gets a response. *)
Definition never_faults : Prop :=
  forall c request, exists c' text, llm_completion c request = (c', inr text).

End Model.

Arguments Ok {C A} a.
Arguments Raise {C A} e.

End StreamlitRLM_REPL.

(** ** A small instance of the collaborators

    The model answers from a script, one response per request, and the
    transport fails when the script is used up.  A response carries code
    when it has a backquote: the fragments are the pieces after each
    backquote.  The REPL environment keeps the fragments it ran; a
    fragment that starts with [!] prints what follows to stderr, any
    other prints itself to stdout.  A response that starts with
    [FINAL:] carries the final answer.  The packager takes a text, a
    list of texts or a list of messages, and faults on a number. *)

Module Demo.

Inductive context : Type :=
| text (s : str)
| fragments (l : list str)
| conversation (l : list message)
| number (n : Z).

Definition convert (c : context) : str + (option (list str) * str) :=
  match c with
  | text s => inr (None, s)
  | fragments l => inr (Some l, List.concat (map (fun s => s ++ nl) l))
  | conversation l =>
      inr (Some (map content l),
           List.concat (map (fun m => role m ++ lit ": " ++ content m ++ nl) l))
  | number _ => inl (lit "unrecognized context")
  end.

Definition ascii_upper (s : str) : str :=
  map (fun c => if ((97 <=? c) && (c <=? 122))%N then (c - 32)%N else c) s.

Fixpoint split_backquote (s : str) (piece : str) : list str :=
  match s with
  | [] => [piece]
  | c :: rest =>
      if (c =? 96)%N then piece :: split_backquote rest []
      else split_backquote rest (piece ++ [c])
  end.

Definition find_blocks (response : str) : option (list str) :=
  match split_backquote response [] with
  | _ :: (_ :: _) as blocks => Some blocks
  | _ => None
  end.

Fixpoint strip_prefix (p s : str) : option str :=
  match p, s with
  | [], _ => Some s
  | a :: p', b :: s' => if (a =? b)%N then strip_prefix p' s' else None
  | _ :: _, [] => None
  end.

Definition execute (e : list str) (code : str) : list str * REPLResult nat :=
  (e ++ [code],
   match code with
   | 33%N :: err => {| stdout := []; stderr := err; execution_time := 1 |}
   | _ => {| stdout := code; stderr := []; execution_time := 1 |}
   end).

Definition answer (script : list str) (request : list message)
    : list str * (str + str) :=
  match script with
  | [] => ([], inl (lit "no response"))
  | r :: rest => (rest, inr r)
  end.

Definition prompt (query : option str) (iteration : nat)
    (final_answer : option bool) : message :=
  {| role := lit "user";
     content :=
       match final_answer with
       | Some true => lit "Answer now: "
       | _ => lit "Step " ++ of_nat iteration ++ lit ": "
       end
         ++ match query with Some q => q | None => lit "None" end |}.

(** The instance over a model given by its client: what a fresh client
    is and how it answers a request. *)
Definition instance (client : Type) (fresh : client)
    (answer : client -> list message -> client * (str + str))
    : Collaborators := {|
  time := nat;
  upper := ascii_upper;
  format_3f := of_nat;
  time_truthy := fun n => negb (n =? 0);
  DEFAULT_QUERY := lit "Please answer the query in the context.";
  build_system_prompt :=
    [ {| role := lit "system"; content := lit "You work in a REPL." |} ];
  next_action_prompt := prompt;
  raw_context := context;
  context_data := option (list str);
  context_str := str;
  packaging_fault := str;
  convert_context_for_repl := convert;
  env := list str;
  REPLEnv := fun _ _ _ => [];
  code_execution := execute;
  find_code_blocks := find_blocks;
  check_for_final_answer :=
    fun response e => (e, strip_prefix (lit "FINAL:") response);
  check_for_final_answer_unbound := strip_prefix (lit "FINAL:");
  client := client;
  transport_fault := str;
  OpenAIClient := fun _ _ => fresh;
  llm_completion := answer
|}.

(** A model that answers from a script, and one that always thinks. *)
Definition collaborators (script : list str) : Collaborators :=
  instance script answer.

Definition steady : Collaborators :=
  instance tt (fun c _ => (c, inr (lit "think"))).

(** A fresh object over a script, as [main] builds it. *)
Definition rlm (script : list str) (max_iterations : Z)
    : @StreamlitRLM_REPL.state (collaborators script) :=
  @StreamlitRLM_REPL.__init__ (collaborators script) StreamlitLogger.init
    None (lit "gpt-5") (lit "gpt-5-nano") max_iterations.

Definition run (script : list str) (max_iterations : Z) (c : context)
    (query : option str) :=
  @StreamlitRLM_REPL.completion (collaborators script) c query
    (rlm script max_iterations).

(** Sample inputs: a context, a query, a fragment that prints 2001
    characters and one that writes 501 characters to stderr, and
    scripts of model responses. *)
Definition ctx : context := text (lit "ctx").

Definition q : str := lit "q?".

Definition long_output : str := repeat 97%N 2001.

Definition long_error : str := 33%N :: repeat 98%N 501.

Definition noisy : list str := [ 96%N :: long_output; lit "done" ].

Definition undecided : list str := [ lit "think"; lit "done" ].

Definition decided : list str :=
  [ lit "think"; lit "FINAL:42`print(1)"; lit "unused" ].

(** The object on entry of the loop, for [ctx] and the query [q]. *)
Definition ready (script : list str) (max_iterations : Z)
    : @StreamlitRLM_REPL.state (collaborators script) :=
  @StreamlitRLM_REPL.entered (collaborators script) (Some q)
    (None, lit "ctx") (rlm script max_iterations).

End Demo.


(** ** An instance whose fragment finder returns a list in every case

    The interface lets [find_code_blocks] return a list without any
    fragment.  [Lenient] is the sample instance but for the finder: it
    returns the pieces after each backquote, and so the empty list, not
    [None], for a response without a backquote. *)

Module Lenient.

Definition find_blocks (response : str) : option (list str) :=
  Some (tl (Demo.split_backquote response [])).

Definition collaborators (script : list str) : Collaborators := {|
  time := nat;
  upper := Demo.ascii_upper;
  format_3f := of_nat;
  time_truthy := fun n => negb (n =? 0);
  DEFAULT_QUERY := lit "Please answer the query in the context.";
  build_system_prompt :=
    [ {| role := lit "system"; content := lit "You work in a REPL." |} ];
  next_action_prompt := Demo.prompt;
  raw_context := Demo.context;
  context_data := option (list str);
  context_str := str;
  packaging_fault := str;
  convert_context_for_repl := Demo.convert;
  env := list str;
  REPLEnv := fun _ _ _ => [];
  code_execution := Demo.execute;
  find_code_blocks := find_blocks;
  check_for_final_answer :=
    fun response e => (e, Demo.strip_prefix (lit "FINAL:") response);
  check_for_final_answer_unbound := Demo.strip_prefix (lit "FINAL:");
  client := list str;
  transport_fault := str;
  OpenAIClient := fun _ _ => script;
  llm_completion := Demo.answer
|}.

Definition run (script : list str) (max_iterations : Z) (c : Demo.context)
    (query : option str) :=
  @StreamlitRLM_REPL.completion (collaborators script) c query
    (@StreamlitRLM_REPL.__init__ (collaborators script) StreamlitLogger.init
       None (lit "gpt-5") (lit "gpt-5-nano") max_iterations).

End Lenient.

(** ** load_example

    The function that [main] binds to the Load Example button.  It
    reads [example_size] from the session state and writes four of its
    entries.  The module [random] is a generator with a state: a draw
    yields some natural number, and [randbelow n] reduces it below [n],
    so that every value below [n] is a possible outcome.
    [num_lines * 0.4] is a product of binary64 numbers and [int]
    truncates it; the conversion of [num_lines] to a float is the one of
    Python as long as [num_lines] is below 2^63. *)

Module Example.

Import Stdlib.Floats.PrimFloat.

(** The literals [0.4] and [0.6], as binary64 rounds them. *)
Definition float_0_4 : float := 0x1.999999999999ap-2%float.

Definition float_0_6 : float := 0x1.3333333333333p-1%float.

(** [int(x)] for a float: truncation toward zero, and no value for an
    infinity or a NaN. *)
Definition int_of_float (x : float) : option Z :=
  match FloatOps.Prim2SF x with
  | SpecFloat.S754_zero _ => Some 0%Z
  | SpecFloat.S754_finite s m e =>
      let v :=
        if (0 <=? e)%Z then (Z.pos m * 2 ^ e)%Z else (Z.pos m / 2 ^ (- e))%Z in
      Some (if s then (- v)%Z else v)
  | _ => None
  end.

(** [int(n * x)] for a non-negative integer [n]. *)
Definition int_times (n : N) (x : float) : option Z :=
  int_of_float (mul (of_uint63 (Uint63.of_Z (Z.of_N n))) x).

(** [str(n)] for a non-negative integer. *)
Definition str_of_N (n : N) : str :=
  lit (NilEmpty.string_of_uint (N.to_uint n)).

Inductive error : Type :=
| ValueError
| IndexError
| OverflowError.

Inductive outcome (A : Type) : Type :=
| Done (a : A)
| Failed (e : error).

Arguments Done {A} a.
Arguments Failed {A} e.

(** The entries of [st.session_state] that [load_example] reads or
    writes; [None] is a key that is not set. *)
Record session : Type := Session {
  example_size : option N;
  context_input : str;
  query_input : str;
  example_answer : option str;
  example_num_lines : option N
}.

(** [sep.join(parts)] *)
Fixpoint join (sep : str) (parts : list str) : str :=
  match parts with
  | [] => []
  | [x] => x
  | x :: rest => x ++ sep ++ join sep rest
  end.

(** [l[i] = x], which raises [IndexError] when [i] is not an index. *)
Fixpoint set_item (l : list str) (i : nat) (x : str) : option (list str) :=
  match l, i with
  | [], _ => None
  | _ :: rest, 0 => Some (x :: rest)
  | y :: rest, S j =>
      match set_item rest j x with
      | Some rest' => Some (y :: rest')
      | None => None
      end
  end.

Definition random_words : list str :=
  [ lit "blah"; lit "random"; lit "text"; lit "data"; lit "content";
    lit "information"; lit "sample" ].

Section Random.

Variable rng : Type.
Variable next : rng -> N * rng.

Definition randbelow (n : N) (g : rng) : N * rng :=
  let (x, g') := next g in ((x mod n)%N, g').

(** [random.randint(a, b)], which raises [ValueError] on an empty
    range. *)
Definition randint (a b : N) (g : rng) : outcome (N * rng) :=
  if (b <? a)%N then Failed ValueError
  else let (x, g') := randbelow (b - a + 1)%N g in Done ((a + x)%N, g').

(** [random.choice(random_words)] *)
Definition choice (g : rng) : str * rng :=
  let (i, g') := randbelow (N.of_nat (List.length random_words)) g in
  (nth (N.to_nat i) random_words [], g').

(** [[random.choice(random_words) for _ in range(num_words)]] *)
Fixpoint line_words (num_words : nat) (g : rng) : list str * rng :=
  match num_words with
  | 0 => ([], g)
  | S k =>
      let (w, g1) := choice g in
      let (ws, g2) := line_words k g1 in
      (w :: ws, g2)
  end.

(** The loop that fills [lines]; [randint(3, 8)] does not fail. *)
Fixpoint filler (num_lines : nat) (g : rng) : list str * rng :=
  match num_lines with
  | 0 => ([], g)
  | S k =>
      match randint 3 8 g with
      | Done (num_words, g1) =>
          let (ws, g2) := line_words (N.to_nat num_words) g1 in
          let (ls, g3) := filler k g2 in
          (join (lit " ") ws :: ls, g3)
      | Failed _ => ([], g)
      end
  end.

Definition load_example (st : session) (g : rng) : outcome (session * rng) :=
  match randint 1000000 9999999 g with
  | Failed e => Failed e
  | Done (drawn, g1) =>
      let answer := str_of_N drawn in
      let num_lines :=
        match example_size st with Some n => n | None => 1000%N end in
      let (lines, g2) := filler (N.to_nat num_lines) g1 in
      match int_times num_lines float_0_4, int_times num_lines float_0_6 with
      | Some low, Some high =>
          match randint (Z.to_N low) (Z.to_N high) g2 with
          | Failed e => Failed e
          | Done (magic_position, g3) =>
              match
                set_item lines (N.to_nat magic_position)
                  (lit "The magic number is " ++ answer)
              with
              | None => Failed IndexError
              | Some lines =>
                  Done
                    ({| example_size := example_size st;
                        context_input := join nl lines;
                        query_input :=
                          lit "I'm looking for a magic number. What is it?";
                        example_answer := Some answer;
                        example_num_lines := Some num_lines |},
                     g3)
              end
          end
      | _, _ => Failed OverflowError
      end
  end.

End Random.

(** The sizes that the slider of [main] offers. *)
Definition sizes : list N := [100; 1000; 10000; 100000; 1000000]%N.

(** A text without a newline. *)
Definition one_line (s : str) : Prop := ~ In 10%N s.

Definition no_newline (s : str) : bool :=
  forallb (fun c => negb (c =? 10)%N) s.

End Example.

(** ** log_initial_messages on dicts that may lack a key

    [log_initial_messages] reads each message with
    [msg.get('role', 'unknown')] and [msg.get('content', '')].  A
    [message] has both keys; [Listed.entry] is a dict in which either
    may be missing, and the three definitions below are the method on
    such dicts.  On the dicts of messages they are the definitions of
    [StreamlitLogger] (lemma [log_initial_messages_of_messages]). *)

Module Listed.

Record entry : Type := Entry {
  get_role : option str;
  get_content : option str
}.

Definition of_message (m : message) : entry :=
  {| get_role := Some (role m); get_content := Some (content m) |}.

Section Methods.

Variable upper : str -> str.

Definition initial_entry (i : nat) (msg : entry) : str :=
  let role := match get_role msg with Some r => r | None => lit "unknown" end in
  let msg_content := match get_content msg with Some c => c | None => [] end in
  let msg_content :=
    if 300 <? len msg_content
    then upto 300 msg_content ++ lit "..."
    else msg_content in
  lit "**[" ++ of_nat (i + 1) ++ lit "] " ++ upper role
    ++ lit ":**" ++ nl ++ msg_content ++ nl ++ nl.

Fixpoint initial_content (i : nat) (messages : list entry) : str :=
  match messages with
  | [] => []
  | msg :: rest => initial_entry i msg ++ initial_content (S i) rest
  end.

Definition log_initial_messages (messages : list entry)
    (l : StreamlitLogger.t) : StreamlitLogger.t :=
  StreamlitLogger._render
    (StreamlitLogger.add_step
       (StreamlitLogger.system_step ([128203%N] ++ lit " System Prompt")
          (initial_content 0 messages) false) l).

End Methods.

End Listed.

(** ** Counting what a run leaves behind

    The calls a client makes on a logger, and the counts that relate
    the conversation of the object, the steps of its logger and the
    history of its calls. *)

Module Observed.

Import StreamlitRLM_REPL.

Section Counts.

Context {C : Collaborators}.

(** A call of one of the five logging methods. *)
Inductive logging : Type :=
| query_started (q : str)
| messages_listed (msgs : list message)
| response_logged (response : str) (has_tool_calls : bool)
| execution_logged (code out err : str) (elapsed : time)
| answer_logged (response : str).

Definition logged (c : logging) (l : StreamlitLogger.t) : StreamlitLogger.t :=
  match c with
  | query_started q => StreamlitLogger.log_query_start q l
  | messages_listed msgs => StreamlitLogger.log_initial_messages upper msgs l
  | response_logged response has_tool_calls =>
      StreamlitLogger.log_model_response response has_tool_calls l
  | execution_logged code out err elapsed =>
      StreamlitLogger.log_code_execution format_3f time_truthy code out err
        elapsed l
  | answer_logged response => StreamlitLogger.log_final_response response l
  end.

(** The logger after a sequence of calls, first call first. *)
Definition logged_all (cs : list logging) (l : StreamlitLogger.t)
    : StreamlitLogger.t :=
  fold_left (fun l c => logged c l) cs l.

Definition is_query_started (c : logging) : bool :=
  match c with query_started _ => true | _ => false end.

Definition is_response_logged (c : logging) : bool :=
  match c with response_logged _ _ => true | _ => false end.

Definition writes_status (c : logging) : bool :=
  match c with
  | query_started _ | response_logged _ _ | answer_logged _ => true
  | _ => false
  end.

Definition is_response_step (s : StreamlitLogger.step) : bool :=
  match s with StreamlitLogger.response_step _ _ _ _ => true | _ => false end.

Definition is_code_step (s : StreamlitLogger.step) : bool :=
  match s with StreamlitLogger.code_step _ _ _ _ => true | _ => false end.

Definition count {A : Type} (f : A -> bool) (l : list A) : nat :=
  List.length (filter f l).

Definition response_steps (l : StreamlitLogger.t) : nat :=
  count is_response_step (StreamlitLogger.steps l).

Definition code_steps (l : StreamlitLogger.t) : nat :=
  count is_code_step (StreamlitLogger.steps l).

(** Equality of two texts, and the messages of a role. *)
Definition str_eqb (a b : str) : bool :=
  if list_eq_dec N.eq_dec a b then true else false.

Definition with_role (r : str) (msgs : list message) : nat :=
  count (fun m => str_eqb (role m) r) msgs.

Definition is_exec_call (c : call) : bool :=
  match c with exec_call _ => true | _ => false end.

Definition executions (h : list call) : nat := count is_exec_call h.

(** [balanced s s']: between [s] and [s'] the conversation gained as
    many assistant messages as the logger counted model responses, as
    many user messages as fragments were executed, nothing else, and
    the logger gained one code step per executed fragment. *)
Definition balanced (s s' : state) : Prop :=
  with_role (lit "assistant") (messages s')
    + StreamlitLogger.conversation_step (st_logger s)
  = with_role (lit "assistant") (messages s)
    + StreamlitLogger.conversation_step (st_logger s')
  /\ with_role (lit "user") (messages s') + executions (history s)
     = with_role (lit "user") (messages s) + executions (history s')
  /\ code_steps (st_logger s') + executions (history s)
     = code_steps (st_logger s) + executions (history s')
  /\ List.length (messages s')
       + with_role (lit "assistant") (messages s)
       + with_role (lit "user") (messages s)
     = List.length (messages s)
       + with_role (lit "assistant") (messages s')
       + with_role (lit "user") (messages s').

(** A statement that relates the object before and after by [R]. *)
Definition preserving {A : Type} (R : state -> state -> Prop) (m : M A)
    : Prop :=
  forall s, R s (snd (m s)).

End Counts.

End Observed.


(** * Properties of the loop *)

Import StreamlitRLM_REPL.

(** ** Text *)

Lemma len_app (s t : str) : len (s ++ t) = len s + len t.
Proof. unfold len. apply length_app. Qed.

Lemma upto_all (n : nat) (s : str) : len s <= n -> upto n s = s.
Proof. unfold len, upto. apply firstn_all2. Qed.

Lemma len_upto (n : nat) (s : str) : n <= len s -> len (upto n s) = n.
Proof. unfold len, upto. intros H. rewrite length_firstn. lia. Qed.

Lemma app_no_marker (a marker b : str) : a ++ b = a ++ marker ++ b -> marker = [].
Proof.
  intros H. apply app_inv_head in H.
  assert (L : List.length b = List.length (marker ++ b)) by (rewrite <- H; reflexivity).
  rewrite length_app in L. destruct marker; [reflexivity | simpl in L; lia].
Qed.

Section Loop.

Context {C : Collaborators}.

(** ** The object through a sequence of statements *)

Lemma bind_Ok (A B : Type) (m : M A) (k : A -> M B) s a s' :
  m s = (Ok a, s') -> bind m k s = k a s'.
Proof. intros H. unfold bind. rewrite H. reflexivity. Qed.

Lemma bind_Raise (A B : Type) (m : M A) (k : A -> M B) s e s' :
  m s = (Raise e, s') -> bind m k s = (Raise e, s').
Proof. intros H. unfold bind. rewrite H. reflexivity. Qed.

Lemma set_messages_same (s : state) : set_messages (messages s) s = s.
Proof. destruct s. reflexivity. Qed.

(** ** Truncation *)

Lemma truncated_stdout_upto (r : REPLResult time) :
  truncated_stdout r = upto 2000 (stdout r).
Proof.
  unfold truncated_stdout. destruct (2000 <? len (stdout r)) eqn:E.
  - reflexivity.
  - apply Nat.ltb_ge in E. symmetry. apply upto_all. exact E.
Qed.

Lemma truncated_stderr_upto (r : REPLResult time) :
  truncated_stderr r = upto 500 (stderr r).
Proof.
  unfold truncated_stderr. destruct (500 <? len (stderr r)) eqn:E.
  - reflexivity.
  - apply Nat.ltb_ge in E. symmetry. apply upto_all. exact E.
Qed.

(** ** The loop over the fragments *)

Lemma process_blocks_cons (b : str) (rest : list str) (s : state) (e : env) :
  repl_env s = Some e ->
  process_blocks (b :: rest) s =
  process_blocks rest
    (let r := snd (code_execution e b) in
     set_messages
       (messages s ++ [tool_response r])
       (set_st_logger
          (StreamlitLogger.log_code_execution format_3f time_truthy b
             (stdout r) (stderr r) (execution_time r) (st_logger s))
          (record_call (exec_call b)
             (set_repl_env (Some (fst (code_execution e b))) s)))).
Proof.
  intros H. simpl. unfold bind at 1. unfold repl_code_execution at 1.
  rewrite H. destruct (code_execution e b) as [e1 r]. reflexivity.
Qed.

Lemma process_blocks_spec (blocks : list str) :
  forall (s : state) (e : env),
    repl_env s = Some e ->
    exists s',
      process_blocks blocks s = (Ok tt, s')
      /\ messages s' = messages s ++ map tool_response (snd (run_blocks e blocks))
      /\ history s' = history s ++ map exec_call blocks
      /\ repl_env s' = Some (fst (run_blocks e blocks))
      /\ llm s' = llm s.
Proof.
  induction blocks as [| b rest IH]; intros s e H.
  - exists s. simpl. rewrite !app_nil_r. auto.
  - rewrite (process_blocks_cons b rest s H).
    destruct (code_execution e b) as [e1 r] eqn:E. simpl fst. simpl snd.
    match goal with |- context [process_blocks rest ?s1] =>
      destruct (IH s1 e1 eq_refl) as (s' & R & Hm & Hh & He & Hl) end.
    exists s'. split; [exact R |].
    simpl run_blocks. rewrite E.
    destruct (run_blocks e1 rest) as [e2 rs] eqn:E2. simpl in *.
    rewrite Hm, Hh, He, Hl. rewrite <- !app_assoc. simpl. auto.
Qed.

Lemma process_code_spec (response : str) (blocks : list str) (s : state) (e : env) :
  repl_env s = Some e ->
  exists s',
    _process_code_with_logging response blocks s = (Ok (messages s'), s')
    /\ messages s' =
         messages s
           ++ {| role := lit "assistant"; content := response |}
           :: map tool_response (snd (run_blocks e blocks))
    /\ history s' = history s ++ map exec_call blocks
    /\ repl_env s' = Some (fst (run_blocks e blocks))
    /\ llm s' = llm s.
Proof.
  intros H.
  set (s1 := set_messages
               (messages s ++ [{| role := lit "assistant"; content := response |}]) s).
  destruct (@process_blocks_spec blocks s1 e H) as (s' & R & Hm & Hh & He & Hl).
  exists s'.
  unfold _process_code_with_logging, bind, messages_append, modify.
  fold s1. rewrite R. unfold get, ret.
  split; [reflexivity |]. rewrite Hm, Hh, He, Hl. subst s1. simpl.
  rewrite <- app_assoc. simpl. auto.
Qed.

(** ** What a statement keeps *)

Lemma keeps_refl (s : state) : keeps s s.
Proof.
  unfold keeps. repeat split; auto.
  - exists []. symmetry. apply app_nil_r.
  - exists []. symmetry. apply app_nil_r.
Qed.

Lemma keeps_trans (s1 s2 s3 : state) : keeps s1 s2 -> keeps s2 s3 -> keeps s1 s3.
Proof.
  intros (Q1 & N1 & L1 & E1 & (a1 & M1) & (h1 & H1))
         (Q2 & N2 & L2 & E2 & (a2 & M2) & (h2 & H2)).
  unfold keeps. repeat split; try congruence.
  - auto.
  - exists (a1 ++ a2). rewrite M2, M1. symmetry. apply app_assoc.
  - exists (h1 ++ h2). rewrite H2, H1. symmetry. apply app_assoc.
Qed.

Lemma silent_refl (s : state) : silent s s.
Proof. unfold silent. split; [apply keeps_refl | auto]. Qed.

Lemma silent_trans (s1 s2 s3 : state) : silent s1 s2 -> silent s2 s3 -> silent s1 s3.
Proof.
  intros (K1 & C1 & L1) (K2 & C2 & L2). unfold silent.
  split; [eapply keeps_trans; eassumption | split; congruence].
Qed.

Lemma llm_calls_app (h1 h2 : list call) :
  llm_calls (h1 ++ h2) = llm_calls h1 ++ llm_calls h2.
Proof. unfold llm_calls. apply flat_map_app. Qed.

Lemma llm_calls_exec (blocks : list str) : llm_calls (map exec_call blocks) = [].
Proof. induction blocks; simpl; auto. Qed.

Lemma keeping_bind (A B : Type) (m : M A) (k : A -> M B) :
  keeping m -> (forall a, keeping (k a)) -> keeping (bind m k).
Proof.
  intros Hm Hk s. unfold bind. specialize (Hm s).
  destruct (m s) as [[a | e] s1]; simpl in *.
  - eapply keeps_trans; [exact Hm | apply Hk].
  - exact Hm.
Qed.

Lemma quiet_bind (A B : Type) (m : M A) (k : A -> M B) :
  quiet m -> (forall a, quiet (k a)) -> quiet (bind m k).
Proof.
  intros Hm Hk s. unfold bind. specialize (Hm s).
  destruct (m s) as [[a | e] s1]; simpl in *.
  - eapply silent_trans; [exact Hm | apply Hk].
  - exact Hm.
Qed.

Lemma quiet_keeping (A : Type) (m : M A) : quiet m -> keeping m.
Proof. intros H s. apply H. Qed.

Lemma quiet_ret (A : Type) (a : A) : quiet (ret a).
Proof. intros s. apply silent_refl. Qed.

Lemma quiet_raise (A : Type) (e : exn) : quiet (@raise C A e).
Proof. intros s. apply silent_refl. Qed.

Lemma quiet_get : quiet get.
Proof. intros s. apply silent_refl. Qed.

Ltac frame_fields :=
  unfold silent, keeps; simpl;
  repeat split; auto;
  try (exists []; symmetry; apply app_nil_r);
  try (eexists; reflexivity);
  try discriminate.

Lemma quiet_log (f : StreamlitLogger.t -> StreamlitLogger.t) :
  (forall l, StreamlitLogger.query (f l) = StreamlitLogger.query l) ->
  quiet (log f).
Proof. intros H s. unfold log, modify. frame_fields. Qed.

Lemma quiet_messages_append (m : message) : quiet (messages_append m).
Proof. intros s. unfold messages_append, modify. frame_fields. Qed.

Lemma quiet_repl_code_execution (code : str) : quiet (repl_code_execution code).
Proof.
  intros s. unfold repl_code_execution.
  destruct (repl_env s) as [e |] eqn:E.
  - destruct (code_execution e code) as [e1 r]. frame_fields.
    rewrite llm_calls_app. simpl. apply app_nil_r.
  - apply silent_refl.
Qed.

Lemma quiet_final_answer_check (response : str) : quiet (final_answer_check response).
Proof.
  intros s. unfold final_answer_check.
  destruct (repl_env s) as [e |] eqn:E.
  - destruct (check_for_final_answer response e) as [e1 a]. frame_fields.
    rewrite llm_calls_app. simpl. apply app_nil_r.
  - frame_fields. rewrite llm_calls_app. simpl. apply app_nil_r.
Qed.

Lemma quiet_process_blocks (blocks : list str) : quiet (process_blocks blocks).
Proof.
  induction blocks as [| b rest IH]; simpl.
  - apply quiet_ret.
  - apply quiet_bind; [apply quiet_repl_code_execution | intros r].
    apply quiet_bind; [apply quiet_log; reflexivity | intros _].
    apply quiet_bind; [apply quiet_messages_append | intros _]. exact IH.
Qed.

Lemma process_code_returns (response : str) (blocks : list str) (s : state) :
  match _process_code_with_logging response blocks s with
  | (Ok msgs, s') => msgs = messages s'
  | (Raise _, _) => True
  end.
Proof.
  unfold _process_code_with_logging, bind, messages_append, modify.
  destruct (process_blocks blocks _) as [[[] | e] s1]; simpl; auto.
Qed.

Lemma quiet_process_code (response : str) (blocks : list str) :
  quiet (_process_code_with_logging response blocks).
Proof.
  unfold _process_code_with_logging.
  apply quiet_bind; [apply quiet_messages_append | intros _].
  apply quiet_bind; [apply quiet_process_blocks | intros _].
  apply quiet_bind; [apply quiet_get | intros s0]. apply quiet_ret.
Qed.

(** [self.messages = self._process_code_with_logging(..)] assigns to the
    attribute the list it already holds. *)
Lemma quiet_assign_processed (response : str) (blocks : list str) :
  quiet (bind (_process_code_with_logging response blocks)
           (fun msgs => modify (set_messages msgs))).
Proof.
  intros s. unfold bind.
  pose proof (process_code_returns response blocks s) as R.
  pose proof (quiet_process_code response blocks s) as Q.
  destruct (_process_code_with_logging response blocks s) as [[msgs | e] s1];
    simpl in *.
  - subst msgs. unfold modify. simpl. rewrite set_messages_same. exact Q.
  - exact Q.
Qed.

Lemma quiet_fold_response (response : str) : quiet (fold_response response).
Proof.
  unfold fold_response.
  apply quiet_bind; [apply quiet_log; reflexivity | intros _].
  apply quiet_bind.
  - destruct (find_code_blocks response) as [blocks |].
    + apply quiet_assign_processed.
    + apply quiet_messages_append.
  - intros _. apply quiet_bind; [apply quiet_final_answer_check | intros fa].
    destruct (truthy fa); [| apply quiet_ret].
    destruct fa as [a |]; [| apply quiet_ret].
    apply quiet_bind; [apply quiet_log; reflexivity | intros _]. apply quiet_ret.
Qed.

(** ** One pass of the loop *)

Lemma request_step_spec (q : option str) (i : nat) (s : state) :
  let request := messages s ++ [next_action_prompt q i None] in
  request_step q i s =
  (match snd (llm_completion (llm s) request) with
   | inl e => Raise (TransportFault e)
   | inr response => Ok response
   end,
   record_call (llm_call request)
     (set_llm (fst (llm_completion (llm s) request)) s)).
Proof.
  simpl. unfold request_step, bind, get, llm_request.
  destruct (llm_completion (llm s) _) as [c [e | response]]; reflexivity.
Qed.

Lemma keeping_request_step (q : option str) (i : nat) : keeping (request_step q i).
Proof.
  intros s. rewrite request_step_spec. simpl. unfold keeps. simpl.
  repeat split; auto.
  - exists []. symmetry. apply app_nil_r.
  - eexists. reflexivity.
Qed.

Lemma keeping_loop_body (q : option str) (i : nat) : keeping (loop_body q i).
Proof.
  unfold loop_body. apply keeping_bind; [apply keeping_request_step | intros r].
  apply quiet_keeping. apply quiet_fold_response.
Qed.

Lemma assign_processed_spec (response : str) (blocks : list str) (s : state) (e : env) :
  repl_env s = Some e ->
  exists s',
    bind (_process_code_with_logging response blocks)
      (fun msgs => modify (set_messages msgs)) s = (Ok tt, s')
    /\ messages s' =
         messages s
           ++ {| role := lit "assistant"; content := response |}
           :: map tool_response (snd (run_blocks e blocks))
    /\ history s' = history s ++ map exec_call blocks
    /\ repl_env s' = Some (fst (run_blocks e blocks))
    /\ llm s' = llm s.
Proof.
  intros H.
  destruct (process_code_spec response blocks s H) as (s' & R & F).
  exists s'. split; [| exact F].
  rewrite (@bind_Ok _ _ _ _ _ _ _ R). unfold modify. rewrite set_messages_same. reflexivity.
Qed.

Lemma fold_response_spec (response : str) (s : state) (e : env) :
  repl_env s = Some e ->
  exists s',
    fold_response response s = (Ok (detected response e), s')
    /\ messages s' = messages s ++ appended response e
    /\ history s' =
         history s ++ map exec_call (blocks_of response) ++ [check_call response]
    /\ repl_env s' = Some (fst (checked response e))
    /\ llm s' = llm s.
Proof.
  intros H. unfold fold_response, detected, checked, appended, blocks_of.
  set (s0 := set_st_logger
               (StreamlitLogger.log_model_response response
                  (is_not_None (find_code_blocks response)) (st_logger s)) s).
  assert (H0 : repl_env s0 = Some e) by exact H.
  rewrite (@bind_Ok _ _ _ _ s tt s0) by reflexivity.
  assert (P : exists s1,
             match find_code_blocks response with
             | Some code_blocks =>
                 bind (_process_code_with_logging response code_blocks)
                   (fun msgs => modify (set_messages msgs))
             | None =>
                 messages_append
                   {| role := lit "assistant";
                      content := lit "You responded with:" ++ nl ++ response |}
             end s0 = (Ok tt, s1)
             /\ messages s1 =
                  messages s
                    ++ match find_code_blocks response with
                       | Some code_blocks =>
                           {| role := lit "assistant"; content := response |}
                             :: map tool_response (snd (run_blocks e code_blocks))
                       | None =>
                           [ {| role := lit "assistant";
                                content := lit "You responded with:" ++ nl ++ response |} ]
                       end
             /\ history s1 =
                  history s
                    ++ map exec_call
                         match find_code_blocks response with
                         | Some code_blocks => code_blocks
                         | None => []
                         end
             /\ repl_env s1 =
                  Some (fst (run_blocks e
                               match find_code_blocks response with
                               | Some code_blocks => code_blocks
                               | None => []
                               end))
             /\ llm s1 = llm s).
  { destruct (find_code_blocks response) as [blocks |].
    - destruct (assign_processed_spec response blocks s0 H0) as (s1 & R & F).
      exists s1. split; [exact R | exact F].
    - eexists. split; [reflexivity |]. simpl. rewrite app_nil_r. auto. }
  destruct P as (s1 & R1 & Hm & Hh & He & Hl).
  rewrite (@bind_Ok _ _ _ _ _ _ _ R1).
  unfold bind at 1. unfold final_answer_check at 1. rewrite He.
  destruct (check_for_final_answer response _) as [e2 fa]. simpl snd. simpl fst.
  destruct (truthy fa) eqn:T.
  - destruct fa as [a |]; [| discriminate T].
    eexists. split; [reflexivity |]. simpl.
    rewrite Hm, Hh, Hl. rewrite <- app_assoc. auto.
  - eexists. split; [reflexivity |]. simpl.
    rewrite Hm, Hh, Hl. rewrite <- app_assoc. auto.
Qed.

Lemma loop_body_spec (q : option str) (i : nat) (s : state) (e : env)
    (c : client) (response : str) :
  repl_env s = Some e ->
  llm_completion (llm s) (messages s ++ [next_action_prompt q i None])
    = (c, inr response) ->
  exists s',
    loop_body q i s = (Ok (detected response e), s')
    /\ messages s' = messages s ++ appended response e
    /\ history s' =
         history s
           ++ llm_call (messages s ++ [next_action_prompt q i None])
           :: map exec_call (blocks_of response) ++ [check_call response]
    /\ repl_env s' = Some (fst (checked response e))
    /\ llm s' = c.
Proof.
  intros H L. unfold loop_body.
  pose proof (request_step_spec q i s) as R. simpl in R. rewrite L in R. simpl in R.
  rewrite (@bind_Ok _ _ _ _ _ _ _ R).
  match goal with |- context [fold_response response ?k] =>
    destruct (@fold_response_spec response k e H) as (s' & F & Hm & Hh & He & Hl) end.
  exists s'. split; [exact F |]. simpl in *.
  rewrite Hm, Hh, He, Hl. rewrite <- app_assoc. auto.
Qed.

(** ** Setup and the whole method *)

Lemma setup_context_spec (ctx : raw_context) (q : option str) (s : state) :
  setup_context ctx q s =
  match convert_context_for_repl ctx with
  | inl e => (Raise (PackagingFault e), prepared q s)
  | inr packaged => (Ok build_system_prompt, entered q packaged s)
  end.
Proof.
  unfold setup_context, bind, modify, log, get, raise, ret, entered, prepared.
  destruct (convert_context_for_repl ctx) as [e | [d t]]; reflexivity.
Qed.

Lemma completion_spec (ctx : raw_context) (q : option str) (s : state) :
  completion ctx q s =
  match convert_context_for_repl ctx with
  | inl e => (Raise (PackagingFault e), prepared q s)
  | inr packaged =>
      bind (for_iteration_in q (range (_max_iterations s)) None)
        (after_loop q) (entered q packaged s)
  end.
Proof.
  unfold completion. unfold bind at 1. rewrite setup_context_spec.
  destruct (convert_context_for_repl ctx) as [e | [d t]]; reflexivity.
Qed.

(** ** The loop *)

Lemma keeping_for_iteration_in (q : option str) (indices : list nat) :
  forall it, keeping (for_iteration_in q indices it).
Proof.
  induction indices as [| i rest IH]; intros it; simpl.
  - apply quiet_keeping. apply quiet_ret.
  - apply keeping_bind; [apply keeping_loop_body | intros [a |]].
    + apply quiet_keeping. apply quiet_ret.
    + apply IH.
Qed.

Lemma for_iteration_in_app (q : option str) (l1 l2 : list nat) :
  forall it s,
    for_iteration_in q (l1 ++ l2) it s =
    match for_iteration_in q l1 it s with
    | (Ok (exhausted it'), s') => for_iteration_in q l2 it' s'
    | other => other
    end.
Proof.
  induction l1 as [| i rest IH]; intros it s; simpl.
  - reflexivity.
  - unfold bind. destruct (loop_body q i s) as [[[a |] | e] s1]; simpl.
    + reflexivity.
    + apply IH.
    + reflexivity.
Qed.

(** One pass makes exactly one model request, over the conversation as
    the pass found it followed by the instruction of that pass. *)
Lemma loop_body_request (q : option str) (i : nat) (s : state) :
  llm_calls (history (snd (loop_body q i s))) =
  llm_calls (history s) ++ [messages s ++ [next_action_prompt q i None]].
Proof.
  unfold loop_body, bind.
  pose proof (request_step_spec q i s) as R. simpl in R. rewrite R.
  match goal with |- context [record_call ?c ?k] => set (s1 := record_call c k) end.
  destruct (snd (llm_completion (llm s) _)) as [e | response].
  - simpl. rewrite llm_calls_app. reflexivity.
  - destruct (quiet_fold_response response s1) as (_ & Q & _).
    rewrite Q. subst s1. simpl. rewrite llm_calls_app. reflexivity.
Qed.

(** The requests of the loop over [a, a+1, ..]: the pass numbered [k]
    ends its request with the instruction for [a + k]; a loop that is
    exhausted after [n] indices made [n] requests and leaves the loop
    variable at the last index. *)
Lemma for_iteration_in_requests (q : option str) (n : nat) :
  forall (a : nat) (it : option nat) (s : state),
  exists requests,
    llm_calls (history (snd (for_iteration_in q (seq a n) it s))) =
      llm_calls (history s) ++ requests
    /\ List.length requests <= n
    /\ (forall k request,
          nth_error requests k = Some request ->
          exists conversation,
            request = conversation ++ [next_action_prompt q (a + k) None])
    /\ (forall it',
          fst (for_iteration_in q (seq a n) it s) = Ok (exhausted it') ->
          List.length requests = n
          /\ it' = match n with 0 => it | S m => Some (a + m) end).
Proof.
  assert (One : forall a s k request,
             nth_error [messages s ++ [next_action_prompt q a None]] k
               = Some request ->
             exists conversation,
               request = conversation ++ [next_action_prompt q (a + k) None]).
  { intros a s k request H. destruct k as [| k]; [| destruct k; discriminate H].
    inversion H. exists (messages s). rewrite Nat.add_0_r. reflexivity. }
  induction n as [| n IH]; intros a it s.
  - exists []. simpl. rewrite app_nil_r.
    split; [reflexivity | split; [lia | split]].
    + intros k request H. destruct k; discriminate H.
    + intros it' H. inversion H. auto.
  - simpl. unfold bind.
    pose proof (loop_body_request q a s) as R.
    destruct (loop_body q a s) as [[[ans |] | e] s1]; simpl in R.
    + exists [messages s ++ [next_action_prompt q a None]]. simpl.
      split; [exact R | split; [lia | split]].
      * apply One.
      * intros it' H; discriminate H.
    + destruct (IH (S a) (Some a) s1) as (requests & Hc & Hl & Hs & He).
      exists ((messages s ++ [next_action_prompt q a None]) :: requests).
      rewrite Hc, R. rewrite <- app_assoc. simpl.
      split; [reflexivity | split; [lia | split]].
      * intros k request H. destruct k as [| k].
        -- inversion H. exists (messages s). rewrite Nat.add_0_r. reflexivity.
        -- simpl in H. destruct (Hs k request H) as (conv & E).
           exists conv. rewrite E. rewrite Nat.add_succ_r. reflexivity.
      * intros it' H. apply He in H. destruct H as [H1 H2]. split; [lia |].
        rewrite H2. destruct n; [rewrite Nat.add_0_r; reflexivity |].
        rewrite Nat.add_succ_r. reflexivity.
    + exists [messages s ++ [next_action_prompt q a None]]. simpl.
      split; [exact R | split; [lia | split]].
      * apply One.
      * intros it' H; discriminate H.
Qed.

(** ** After the loop *)

Lemma keeping_llm_request (request : list message) : keeping (llm_request request).
Proof.
  intros s. unfold llm_request.
  destruct (llm_completion (llm s) request) as [c [e | text]]; simpl;
    unfold keeps; simpl; repeat split; auto;
    try (exists []; symmetry; apply app_nil_r); eexists; reflexivity.
Qed.

Lemma keeping_after_loop (q : option str) (exit : loop_exit) : keeping (after_loop q exit).
Proof.
  destruct exit as [a | [i |]]; simpl.
  - apply quiet_keeping. apply quiet_ret.
  - apply keeping_bind; [apply quiet_keeping; apply quiet_messages_append | intros _].
    apply keeping_bind; [apply quiet_keeping; apply quiet_get | intros s0].
    apply keeping_bind; [apply keeping_llm_request | intros a].
    apply keeping_bind; [apply quiet_keeping; apply quiet_log; reflexivity | intros _].
    apply quiet_keeping. apply quiet_ret.
  - apply quiet_keeping. apply quiet_raise.
Qed.

(** The forced finalize path: the instruction is appended, one request
    is made over the conversation, and its text is returned as it is. *)
Lemma after_loop_forced (q : option str) (i : nat) (s : state) :
  let forced := messages s ++ [next_action_prompt q i (Some true)] in
  exists s',
    after_loop q (exhausted (Some i)) s =
      (match snd (llm_completion (llm s) forced) with
       | inl e => Raise (TransportFault e)
       | inr text => Ok text
       end, s')
    /\ messages s' = forced
    /\ history s' = history s ++ [llm_call forced]
    /\ llm s' = fst (llm_completion (llm s) forced).
Proof.
  simpl. unfold after_loop, bind, messages_append, modify, get, llm_request. simpl.
  destruct (llm_completion (llm s) _) as [c [e | text]]; simpl;
    eexists; (split; [reflexivity |]); simpl; auto.
Qed.

(** ** The requests and the query of a whole run *)

Lemma completion_requests (ctx : raw_context) (q : option str) (s : state) :
  exists loop_requests final_requests,
    llm_calls (history (snd (completion ctx q s))) =
      llm_calls (history s) ++ loop_requests ++ final_requests
    /\ List.length loop_requests <= Z.to_nat (_max_iterations s)
    /\ (forall k request,
          nth_error loop_requests k = Some request ->
          exists conversation,
            request = conversation ++ [next_action_prompt q k None])
    /\ List.length final_requests <= 1
    /\ (forall request,
          In request final_requests ->
          exists conversation i,
            request = conversation ++ [next_action_prompt q i (Some true)]).
Proof.
  rewrite completion_spec.
  destruct (convert_context_for_repl ctx) as [e | packaged].
  - exists [], []. simpl. rewrite app_nil_r.
    split; [reflexivity | split; [lia | split; [| split; [lia |]]]].
    + intros k request H. destruct k; discriminate H.
    + intros request [].
  - unfold bind, range.
    destruct (for_iteration_in_requests q (Z.to_nat (_max_iterations s)) 0 None
                (entered q packaged s)) as (requests & Hc & Hl & Hs & _).
    change (llm_calls (history (entered q packaged s))) with (llm_calls (history s)) in Hc.
    destruct (for_iteration_in q _ None (entered q packaged s)) as [[[a | [i |]] | e] s1];
      simpl in Hc.
    + exists requests, []. simpl. rewrite app_nil_r.
      split; [exact Hc | split; [exact Hl | split; [exact Hs | split; [lia |]]]].
      intros request [].
    + destruct (after_loop_forced q i s1) as (s2 & R & Hm & Hh & _). cbv zeta in R.
      rewrite R. simpl.
      exists requests, [messages s1 ++ [next_action_prompt q i (Some true)]].
      rewrite Hh, llm_calls_app, Hc. simpl. rewrite <- app_assoc.
      split; [reflexivity | split; [exact Hl | split; [exact Hs | split; [simpl; lia |]]]].
      intros request [H | []]. subst request. exists (messages s1), i. reflexivity.
    + exists requests, []. simpl. rewrite app_nil_r.
      split; [exact Hc | split; [exact Hl | split; [exact Hs | split; [lia |]]]].
      intros request [].
    + exists requests, []. simpl. rewrite app_nil_r.
      split; [exact Hc | split; [exact Hl | split; [exact Hs | split; [lia |]]]].
      intros request [].
Qed.

Lemma completion_query (ctx : raw_context) (q : option str) (s : state) :
  let stored := match q with None => DEFAULT_QUERY | Some q => q end in
  query (snd (completion ctx q s)) = Some stored
  /\ StreamlitLogger.query (st_logger (snd (completion ctx q s))) = stored.
Proof.
  simpl. rewrite completion_spec.
  destruct (convert_context_for_repl ctx) as [e | packaged].
  - split; reflexivity.
  - assert (K : keeping (bind (for_iteration_in q (range (_max_iterations s)) None)
                           (after_loop q))).
    { apply keeping_bind; [apply keeping_for_iteration_in | apply keeping_after_loop]. }
    destruct (K (entered q packaged s)) as (Q & _ & L & _).
    rewrite Q, L. split; reflexivity.
Qed.

(** ** A run that does produce an answer *)

Lemma loop_total (q : option str) (indices : list nat) :
  never_faults ->
  forall it s e,
    repl_env s = Some e ->
    exists x s', for_iteration_in q indices it s = (Ok x, s').
Proof.
  intros NF. induction indices as [| i rest IH]; intros it s e H; simpl.
  - eexists. eexists. reflexivity.
  - destruct (NF (llm s) (messages s ++ [next_action_prompt q i None]))
      as (c & response & L).
    destruct (loop_body_spec q i s H L) as (s1 & R & _ & _ & He & _).
    rewrite (@bind_Ok _ _ _ _ _ _ _ R).
    destruct (detected response e) as [a |].
    + eexists. eexists. reflexivity.
    + eapply IH. exact He.
Qed.

Lemma completion_returns (ctx : raw_context) (q : option str) (s : state)
    (packaged : context_data * context_str) :
  never_faults ->
  convert_context_for_repl ctx = inr packaged ->
  (1 <= _max_iterations s)%Z ->
  exists answer s', completion ctx q s = (Ok answer, s').
Proof.
  intros NF P N. rewrite completion_spec, P. unfold range.
  destruct (@loop_total q (seq 0 (Z.to_nat (_max_iterations s))) NF None
              (entered q packaged s) _ eq_refl) as (x & s1 & R).
  rewrite (@bind_Ok _ _ _ _ _ _ _ R).
  destruct x as [a | it].
  - eexists. eexists. reflexivity.
  - destruct (for_iteration_in_requests q (Z.to_nat (_max_iterations s)) 0 None
                (entered q packaged s)) as (requests & _ & _ & _ & He).
    rewrite R in He. destruct (He it eq_refl) as [_ E].
    destruct (Z.to_nat (_max_iterations s)) as [| m] eqn:Em; [lia |].
    subst it. change (0 + m) with m.
    destruct (after_loop_forced q m s1) as (s2 & F & _). cbv zeta in F.
    destruct (NF (llm s1) (messages s1 ++ [next_action_prompt q m (Some true)]))
      as (c & text & L).
    rewrite L in F. exists text, s2. exact F.
Qed.

(** A run whose loop finds no final answer: [n] requests in the loop,
    then the forced instruction and one more request, whose text is the
    answer. *)
Lemma completion_exhausted (ctx : raw_context) (q : option str) (s : state)
    (packaged : context_data * context_str) (n : nat) (it : option nat)
    (s1 : state) :
  convert_context_for_repl ctx = inr packaged ->
  Z.to_nat (_max_iterations s) = S n ->
  for_iteration_in q (seq 0 (S n)) None (entered q packaged s)
    = (Ok (exhausted it), s1) ->
  exists loop_requests,
    llm_calls (history s1) = llm_calls (history s) ++ loop_requests
    /\ List.length loop_requests = S n
    /\ it = Some n
    /\ forall c text,
         llm_completion (llm s1) (messages s1 ++ [next_action_prompt q n (Some true)])
           = (c, inr text) ->
         exists s2,
           completion ctx q s = (Ok text, s2)
           /\ messages s2 = messages s1 ++ [next_action_prompt q n (Some true)]
           /\ llm_calls (history s2) =
                llm_calls (history s) ++ loop_requests
                  ++ [messages s1 ++ [next_action_prompt q n (Some true)]].
Proof.
  intros P N R.
  destruct (for_iteration_in_requests q (S n) 0 None (entered q packaged s))
    as (requests & Hc & _ & _ & He).
  rewrite R in Hc, He. simpl fst in He. simpl snd in Hc.
  destruct (He it eq_refl) as [Hl E]. simpl in E.
  exists requests. split; [exact Hc | split; [exact Hl | split; [exact E |]]].
  intros c text L.
  destruct (after_loop_forced q n s1) as (s2 & F & Hm & Hh & _). cbv zeta in F.
  rewrite L in F.
  exists s2. rewrite completion_spec, P. unfold range. rewrite N.
  rewrite (@bind_Ok _ _ _ _ _ _ _ R). subst it. rewrite F.
  split; [reflexivity | split; [exact Hm |]].
  rewrite Hh, llm_calls_app, Hc. simpl. rewrite <- app_assoc. reflexivity.
Qed.

(** ** The claims about the loop, for every instance of the collaborators *)

(** C1, as amended.  For every executed fragment the user message folded
    into the conversation is [tool_response] of its result, and its
    content holds, after the label [stdout: ], exactly the first 2000
    characters of the captured stdout and, after the label [stderr: ],
    exactly the first 500 characters of the captured stderr, with
    nothing added: a longer stdout is cut to 2000 characters, a longer
    stderr to 500, and a text at or under its cap is included
    unchanged.  No truncation marker is written. *)
Theorem tool_response_truncation (response : str) (blocks : list str)
    (s : state) (e : env) :
  repl_env s = Some e ->
  exists s',
    _process_code_with_logging response blocks s = (Ok (messages s'), s')
    /\ messages s' =
         messages s
           ++ {| role := lit "assistant"; content := response |}
           :: map tool_response (snd (run_blocks e blocks))
    /\ forall r,
         In r (snd (run_blocks e blocks)) ->
         content (tool_response r) =
           lit "REPL environment returned:" ++ nl ++ lit "stdout: "
             ++ upto 2000 (stdout r) ++ nl ++ lit "stderr: "
             ++ upto 500 (stderr r)
         /\ (2000 < len (stdout r) -> len (upto 2000 (stdout r)) = 2000)
         /\ (len (stdout r) <= 2000 -> upto 2000 (stdout r) = stdout r)
         /\ (500 < len (stderr r) -> len (upto 500 (stderr r)) = 500)
         /\ (len (stderr r) <= 500 -> upto 500 (stderr r) = stderr r).
Proof.
  intros H.
  destruct (process_code_spec response blocks s H) as (s' & R & Hm & _).
  exists s'. split; [exact R | split; [exact Hm |]].
  intros r _. split; [| split; [| split; [| split]]].
  - unfold tool_response. simpl.
    rewrite truncated_stdout_upto, truncated_stderr_upto. reflexivity.
  - intros L. apply len_upto. lia.
  - apply upto_all.
  - intros L. apply len_upto. lia.
  - apply upto_all.
Qed.


Lemma run_blocks_length (blocks : list str) :
  forall e, List.length (snd (run_blocks e blocks)) = List.length blocks.
Proof.
  induction blocks as [| b rest IH]; intros e; simpl.
  - reflexivity.
  - destruct (code_execution e b) as [e1 r].
    specialize (IH e1). destruct (run_blocks e1 rest) as [e2 rs].
    simpl in *. rewrite IH. reflexivity.
Qed.

(** The result at position [i] is that of the fragment at position [i],
    run in the environment that the fragments before it left. *)
Lemma run_blocks_nth (blocks : list str) :
  forall e i b,
    nth_error blocks i = Some b ->
    nth_error (snd (run_blocks e blocks)) i
    = Some (snd (code_execution (fst (run_blocks e (firstn i blocks))) b)).
Proof.
  induction blocks as [| b0 rest IH]; intros e i b H.
  - destruct i; discriminate H.
  - destruct i as [| i].
    + inversion H. subst b0. simpl.
      destruct (code_execution e b) as [e1 r].
      destruct (run_blocks e1 rest) as [e2 rs]. reflexivity.
    + simpl in H. simpl.
      destruct (code_execution e b0) as [e1 r].
      specialize (IH e1 i b H).
      destruct (run_blocks e1 rest) as [e2 rs].
      destruct (run_blocks e1 (firstn i rest)) as [e3 rs3].
      simpl in *. exact IH.
Qed.

(** C5.  For a response that carries code fragments the pass appends
    the raw response as one assistant message and then one user message
    per fragment: the message at position [i] is built from the result
    of the fragment at position [i], run in the environment that the
    fragments before it left.  The content of such a message is the
    label [stdout: ] followed by the first 2000 characters of the
    captured stdout (all of it when it is no longer), then the label
    [stderr: ] followed by the first 500 characters of the captured
    stderr (all of it when it is no longer).  The calls of the pass
    after the request are these executions, in the order of the
    response, and then the final-answer check, so no model request
    comes in between. *)
Theorem code_response_appends (response : str) (blocks : list str)
    (s : state) (e : env) :
  repl_env s = Some e ->
  find_code_blocks response = Some blocks ->
  exists s',
    fold_response response s = (Ok (detected response e), s')
    /\ messages s' =
         messages s
           ++ [ {| role := lit "assistant"; content := response |} ]
           ++ map tool_response (snd (run_blocks e blocks))
    /\ List.length (snd (run_blocks e blocks)) = List.length blocks
    /\ (forall i b,
          nth_error blocks i = Some b ->
          nth_error (snd (run_blocks e blocks)) i
          = Some (snd (code_execution (fst (run_blocks e (firstn i blocks))) b)))
    /\ (forall r,
          role (tool_response r) = lit "user"
          /\ content (tool_response r) =
               lit "REPL environment returned:" ++ nl ++ lit "stdout: "
                 ++ upto 2000 (stdout r) ++ nl ++ lit "stderr: "
                 ++ upto 500 (stderr r)
          /\ (len (stdout r) <= 2000 -> upto 2000 (stdout r) = stdout r)
          /\ (len (stderr r) <= 500 -> upto 500 (stderr r) = stderr r))
    /\ history s' = history s ++ map exec_call blocks ++ [check_call response]
    /\ llm_calls (history s') = llm_calls (history s).
Proof.
  intros H F.
  destruct (fold_response_spec response s H) as (s' & R & Hm & Hh & _).
  unfold appended, blocks_of in *. rewrite F in *.
  exists s'.
  split; [exact R | split; [exact Hm | split; [| split; [| split; [| split]]]]].
  - apply run_blocks_length.
  - apply run_blocks_nth.
  - intros r. split; [reflexivity | split; [| split]].
    + unfold tool_response. cbn [content].
      rewrite truncated_stdout_upto, truncated_stderr_upto. reflexivity.
    + apply upto_all.
    + apply upto_all.
  - exact Hh.
  - rewrite Hh, !llm_calls_app, llm_calls_exec. simpl. rewrite app_nil_r. reflexivity.
Qed.

(** C6, as amended.  For a response that carries no code fragment the
    pass appends exactly one message, an assistant message, and no user
    message.  When [find_code_blocks] returns [None], which is what the
    code tests, the content is the response after the prefix
    [You responded with:] and a newline, which differs from the
    response itself; when it returns a list without any fragment, the
    content is the response as it is, without the prefix. *)
Theorem prose_response_appends (response : str) (s : state) :
  blocks_of response = [] ->
  exists final_answer s' m,
    fold_response response s = (Ok final_answer, s')
    /\ messages s' = messages s ++ [m]
    /\ role m = lit "assistant"
    /\ role m <> lit "user"
    /\ (find_code_blocks response = None ->
        content m = lit "You responded with:" ++ nl ++ response
        /\ content m <> response)
    /\ (find_code_blocks response <> None -> content m = response).
Proof.
  intros B. unfold fold_response. unfold blocks_of in B.
  assert (D : lit "You responded with:" ++ nl ++ response <> response).
  { intros E.
    assert (L : List.length (lit "You responded with:" ++ nl ++ response)
                = List.length response) by (rewrite E; reflexivity).
    rewrite !length_app in L. simpl in L. lia. }
  assert (U : lit "assistant" <> lit "user") by discriminate.
  destruct (find_code_blocks response) as [blocks |] eqn:F.
  - subst blocks.
    unfold bind, log, modify, _process_code_with_logging, messages_append,
      final_answer_check, get, ret. simpl.
    destruct (repl_env s) as [e |].
    + destruct (check_for_final_answer response e) as [e1 fa].
      destruct (truthy fa) eqn:T; [destruct fa as [a |]; [| discriminate T] |];
        simpl; do 3 eexists; (split; [reflexivity |]); simpl;
        (split; [reflexivity |]); (split; [reflexivity |]);
        (split; [exact U |]);
        (split; [intros N; discriminate N | intros _; reflexivity]).
    + destruct (truthy (check_for_final_answer_unbound response)) eqn:T;
        [destruct (check_for_final_answer_unbound response) as [a |];
         [| discriminate T] |];
        simpl; do 3 eexists; (split; [reflexivity |]); simpl;
        (split; [reflexivity |]); (split; [reflexivity |]);
        (split; [exact U |]);
        (split; [intros N; discriminate N | intros _; reflexivity]).
  - unfold bind, log, modify, messages_append, final_answer_check. simpl.
    destruct (repl_env s) as [e |].
    + destruct (check_for_final_answer response e) as [e1 fa].
      destruct (truthy fa) eqn:T; [destruct fa as [a |]; [| discriminate T] |];
        simpl; do 3 eexists; (split; [reflexivity |]); simpl;
        (split; [reflexivity |]); (split; [reflexivity |]);
        (split; [exact U |]);
        (split; [intros _; split; [reflexivity | exact D]
                | intros N; contradiction N; reflexivity]).
    + destruct (truthy (check_for_final_answer_unbound response)) eqn:T;
        [destruct (check_for_final_answer_unbound response) as [a |];
         [| discriminate T] |];
        simpl; do 3 eexists; (split; [reflexivity |]); simpl;
        (split; [reflexivity |]); (split; [reflexivity |]);
        (split; [exact U |]);
        (split; [intros _; split; [reflexivity | exact D]
                | intros N; contradiction N; reflexivity]).
Qed.

(** C7.  In every pass the request is made over the persisted
    conversation followed by one instruction, built by
    [next_action_prompt] from the query and the index of the pass; the
    request step leaves the conversation as it was, and what the whole
    pass adds to it is the assistant message of the response and the
    user messages of its fragments, not the instruction.  Over the loop,
    the request of the pass numbered [k] ends with the instruction
    built for [k]. *)
Theorem next_action_not_persisted (q : option str) (i : nat) (s : state) :
  (exists r s',
     request_step q i s = (r, s')
     /\ messages s' = messages s
     /\ history s' =
          history s ++ [llm_call (messages s ++ [next_action_prompt q i None])])
  /\ (forall e c response,
        repl_env s = Some e ->
        llm_completion (llm s) (messages s ++ [next_action_prompt q i None])
          = (c, inr response) ->
        exists s',
          loop_body q i s = (Ok (detected response e), s')
          /\ messages s' = messages s ++ appended response e)
  /\ (forall n it,
        exists requests,
          llm_calls (history (snd (for_iteration_in q (seq 0 n) it s))) =
            llm_calls (history s) ++ requests
          /\ forall k request,
               nth_error requests k = Some request ->
               exists conversation,
                 request = conversation ++ [next_action_prompt q k None]).
Proof.
  split; [| split].
  - do 2 eexists. split; [apply request_step_spec |]. simpl. auto.
  - intros e c response H L.
    destruct (loop_body_spec q i s H L) as (s' & B & Hm & _).
    exists s'. auto.
  - intros n it.
    destruct (for_iteration_in_requests q n 0 it s) as (requests & Hc & _ & Hs & _).
    exists requests. split; [exact Hc | exact Hs].
Qed.

(** C8.  When the packaging of the context faults, [completion] raises
    that fault to its caller and has called no collaborator with a
    state: the history of calls is as it was, so no model request was
    made, and the client is untouched. *)
Theorem packaging_fault_before_any_request (ctx : raw_context)
    (q : option str) (s : state) (e : packaging_fault) :
  convert_context_for_repl ctx = inl e ->
  exists s',
    completion ctx q s = (Raise (PackagingFault e), s')
    /\ history s' = history s
    /\ llm_calls (history s') = llm_calls (history s)
    /\ llm s' = llm s
    /\ repl_env s' = repl_env s.
Proof.
  intros P. exists (prepared q s). rewrite completion_spec, P.
  repeat split.
Qed.

(** C9.  An object constructed with [max_iterations = 0], on a context
    that is packaged without a fault: [completion] sets the context up
    (the query is stored, the conversation is the system prompt, the
    environment is bound), makes no model request, and raises the
    [NameError] of the unbound loop variable [iteration]; no answer is
    returned. *)
Theorem zero_iterations_raises_NameError (logger : StreamlitLogger.t)
    (key : option str) (root_model sub_model : str) (ctx : raw_context)
    (q : option str) (packaged : context_data * context_str) :
  convert_context_for_repl ctx = inr packaged ->
  exists e s',
    completion ctx q (__init__ logger key root_model sub_model 0)
      = (Raise e, s')
    /\ e = UnboundLocalError (lit "iteration")
    /\ is_NameError e = true
    /\ history s' = []
    /\ llm s' = OpenAIClient key root_model
    /\ query s' = Some match q with None => DEFAULT_QUERY | Some q => q end
    /\ messages s' = build_system_prompt
    /\ repl_env s' = Some (REPLEnv (fst packaged) (snd packaged) sub_model).
Proof.
  intros P. do 2 eexists. rewrite completion_spec, P.
  split; [reflexivity |]. repeat split.
Qed.

(** C10.  When [completion] is called with [query = None], the query
    stored in the object and the query the logger is given at query
    start are the default query, while every request of the loop ends
    with the instruction that [next_action_prompt] builds from [None],
    and so does the request of the forced finalize path. *)
Theorem none_query_reaches_the_prompts (ctx : raw_context) (s : state) :
  query (snd (completion ctx None s)) = Some DEFAULT_QUERY
  /\ StreamlitLogger.query (st_logger (snd (completion ctx None s)))
       = DEFAULT_QUERY
  /\ st_logger (snd (setup_context ctx None s)) =
       StreamlitLogger.log_initial_messages upper build_system_prompt
         (StreamlitLogger.log_query_start DEFAULT_QUERY (st_logger s))
  /\ exists loop_requests final_requests,
       llm_calls (history (snd (completion ctx None s))) =
         llm_calls (history s) ++ loop_requests ++ final_requests
       /\ (forall k request,
             nth_error loop_requests k = Some request ->
             exists conversation,
               request = conversation ++ [next_action_prompt None k None])
       /\ (forall request,
             In request final_requests ->
             exists conversation i,
               request = conversation ++ [next_action_prompt None i (Some true)]).
Proof.
  destruct (completion_query ctx None s) as [Q L].
  split; [exact Q | split; [exact L | split]].
  - rewrite setup_context_spec.
    destruct (convert_context_for_repl ctx); reflexivity.
  - destruct (completion_requests ctx None s)
      as (lr & fr & Hc & _ & Hs & _ & Hf).
    exists lr, fr. auto.
Qed.

End Loop.

(** ** The loop on the sample instance *)

(** The scenario of one iteration and a model that never marks a final
    answer: one pass, then the forced instruction and one more request,
    whose text is the answer. *)
Example one_iteration_then_forced :
  let (r, s) := Demo.run Demo.undecided 1 Demo.ctx (Some Demo.q) in
  r = Ok (lit "done")
  /\ List.length (llm_calls (history s)) = 2
  /\ messages s =
       [ {| role := lit "system"; content := lit "You work in a REPL." |};
         {| role := lit "assistant";
            content := lit "You responded with:" ++ nl ++ lit "think" |};
         Demo.prompt (Some Demo.q) 0 (Some true) ].
Proof. vm_compute. repeat split. Qed.

(** With [query = None] the instruction is built from [None]; it is not
    the one built from the default query. *)
Example none_is_not_the_default_query :
  let C := Demo.collaborators Demo.undecided in
  @next_action_prompt C None 0 None
    <> @next_action_prompt C (Some (@DEFAULT_QUERY C)) 0 None.
Proof. vm_compute. discriminate. Qed.

(** C1, as the claim states it, fails: the fragment printed 2001
    characters, and the user message folded into the conversation holds
    the first 2000 of them followed at once by the stderr label; there
    is no truncation marker, whatever its text. *)
Lemma stdout_marker_counterexample :
  let C := Demo.collaborators Demo.noisy in
  let s := snd (Demo.run Demo.noisy 1 Demo.ctx (Some Demo.q)) in
  let r : REPLResult (@time C) :=
    {| stdout := Demo.long_output; stderr := []; execution_time := 1 |} in
  nth_error (messages s) 2 = Some (@tool_response C r)
  /\ 2000 < len (stdout r)
  /\ ~ exists marker,
         marker <> []
         /\ content (@tool_response C r) =
              lit "REPL environment returned:" ++ nl ++ lit "stdout: "
                ++ upto 2000 (stdout r) ++ marker ++ nl ++ lit "stderr: "
                ++ stderr r.
Proof.
  intros C s r. split; [vm_compute; reflexivity | split; [vm_compute; lia |]].
  intros (marker & Hne & H). apply Hne.
  unfold tool_response in H. cbn [content] in H.
  rewrite truncated_stdout_upto, truncated_stderr_upto in H.
  change (upto 500 (stderr r)) with (stderr r) in H.
  do 3 apply app_inv_head in H.
  apply app_no_marker with (a := upto 2000 (stdout r)) (b := nl ++ lit "stderr: " ++ stderr r).
  exact H.
Qed.

Lemma tool_response_truncation_witness :
  let C := Demo.collaborators Demo.noisy in
  let s := Demo.ready Demo.noisy 1 in
  let blocks := [Demo.long_output; Demo.long_error] in
  repl_env s = Some []
  /\ exists s',
       @_process_code_with_logging C (lit "r") blocks s = (Ok (messages s'), s')
       /\ List.length (messages s') = 4.
Proof.
  intros C s blocks. split; [reflexivity |].
  destruct (@tool_response_truncation C (lit "r") blocks s [] eq_refl)
    as (s' & R & Hm & _).
  exists s'. split; [exact R |]. rewrite Hm. vm_compute. reflexivity.
Defined.

(** C2 at [max_iterations = 0]: the context is packaged, the model is
    ready to answer, and [completion] still returns no text: it raises
    the [NameError] of the unbound loop variable. *)
Theorem zero_iterations_returns_no_answer :
  let r := fst (Demo.run [lit "FINAL:42"] 0 Demo.ctx (Some Demo.q)) in
  r = Raise (UnboundLocalError (lit "iteration"))
  /\ forall answer, r <> Ok answer.
Proof.
  intros r. assert (E : r = Raise (UnboundLocalError (lit "iteration")))
    by (vm_compute; reflexivity).
  split; [exact E |]. intros answer H. rewrite E in H. discriminate H.
Qed.

(** C3 at [max_iterations = 0]: no final answer is detected in the
    loop, which makes its [max_iterations = 0] requests, but then no
    forced instruction is appended to the conversation and no further
    request is made: the script of the model is untouched and the run
    ends with the [NameError]. *)
Theorem zero_iterations_makes_no_forced_request :
  let C := Demo.collaborators Demo.undecided in
  let (r, s) := Demo.run Demo.undecided 0 Demo.ctx (Some Demo.q) in
  r = Raise (UnboundLocalError (lit "iteration"))
  /\ llm_calls (history s) = []
  /\ messages s = @build_system_prompt C
  /\ llm s = Demo.undecided.
Proof. vm_compute. repeat split. Qed.


Lemma code_response_appends_witness :
  repl_env (Demo.ready Demo.decided 5) = Some []
  /\ Demo.find_blocks (lit "x`print(1)`!oops") = Some [lit "print(1)"; lit "!oops"]
  /\ exists s',
       fold_response (lit "x`print(1)`!oops") (Demo.ready Demo.decided 5)
         = (Ok None, s')
       /\ List.length (messages s') = 4.
Proof.
  split; [reflexivity | split; [reflexivity |]].
  destruct (@code_response_appends (Demo.collaborators Demo.decided)
              (lit "x`print(1)`!oops") [lit "print(1)"; lit "!oops"]
              (Demo.ready Demo.decided 5) [] eq_refl eq_refl)
    as (s' & R & Hm & _).
  exists s'. split; [exact R |]. rewrite Hm. reflexivity.
Defined.

Lemma prose_response_appends_witness :
  @blocks_of (Demo.collaborators Demo.undecided) (lit "think") = []
  /\ exists s',
       snd (fold_response (lit "think") (Demo.ready Demo.undecided 5)) = s'
       /\ List.length (messages s') = 2.
Proof.
  split; [reflexivity |].
  destruct (@prose_response_appends (Demo.collaborators Demo.undecided)
              (lit "think") (Demo.ready Demo.undecided 5) eq_refl)
    as (fa & s' & m & R & Hm & _).
  exists s'. rewrite R. split; [reflexivity |]. rewrite Hm. reflexivity.
Defined.

(** C6, as the claim states it, fails: the finder returns a list
    without any fragment for the response [think], and the assistant
    message that [completion] appends for it holds the response as it
    is, not wrapped with the prefix, so not distinct from it. *)
Lemma unframed_response_counterexample :
  let C := Lenient.collaborators [lit "think"; lit "done"] in
  let s := snd (Lenient.run [lit "think"; lit "done"] 1 Demo.ctx (Some Demo.q)) in
  @find_code_blocks C (lit "think") = Some []
  /\ @blocks_of C (lit "think") = []
  /\ nth_error (messages s) 1
     = Some {| role := lit "assistant"; content := lit "think" |}
  /\ ~ (exists m,
          nth_error (messages s) 1 = Some m
          /\ content m = lit "You responded with:" ++ nl ++ lit "think"
          /\ content m <> lit "think").
Proof.
  intros C s.
  assert (N : nth_error (messages s) 1
              = Some {| role := lit "assistant"; content := lit "think" |})
    by (vm_compute; reflexivity).
  split; [reflexivity | split; [reflexivity | split; [exact N |]]].
  intros (m & Hm & _ & D). rewrite N in Hm. inversion Hm. subst m.
  apply D. reflexivity.
Qed.

Lemma next_action_not_persisted_witness :
  exists r s',
    request_step (Some Demo.q) 0 (Demo.ready Demo.undecided 5) = (r, s')
    /\ messages s' = messages (Demo.ready Demo.undecided 5)
    /\ llm_calls (history s') =
         [ messages (Demo.ready Demo.undecided 5)
             ++ [Demo.prompt (Some Demo.q) 0 None] ].
Proof.
  destruct (@next_action_not_persisted (Demo.collaborators Demo.undecided)
              (Some Demo.q) 0 (Demo.ready Demo.undecided 5))
    as ((r & s' & R & Hm & Hh) & _).
  exists r, s'. split; [exact R | split; [exact Hm |]].
  rewrite Hh. reflexivity.
Defined.

Lemma packaging_fault_before_any_request_witness :
  Demo.convert (Demo.number 3) = inl (lit "unrecognized context")
  /\ exists s',
       fst (Demo.run Demo.decided 5 (Demo.number 3) (Some Demo.q))
         = Raise (@PackagingFault (Demo.collaborators Demo.decided)
                    (lit "unrecognized context"))
       /\ snd (Demo.run Demo.decided 5 (Demo.number 3) (Some Demo.q)) = s'
       /\ history s' = []
       /\ llm s' = Demo.decided.
Proof.
  split; [reflexivity |].
  destruct (@packaging_fault_before_any_request (Demo.collaborators Demo.decided)
              (Demo.number 3) (Some Demo.q) (Demo.rlm Demo.decided 5)
              (lit "unrecognized context") eq_refl)
    as (s' & R & Hh & _ & Hl & _).
  exists s'. unfold Demo.run. rewrite R.
  split; [reflexivity | split; [reflexivity | split; [exact Hh | exact Hl]]].
Defined.

Lemma zero_iterations_raises_NameError_witness :
  Demo.convert Demo.ctx = inr (None, lit "ctx")
  /\ exists e s',
       Demo.run Demo.decided 0 Demo.ctx None = (Raise e, s')
       /\ is_NameError e = true
       /\ history s' = [].
Proof.
  split; [reflexivity |].
  destruct (@zero_iterations_raises_NameError (Demo.collaborators Demo.decided)
              StreamlitLogger.init None (lit "gpt-5") (lit "gpt-5-nano") Demo.ctx
              None (None, lit "ctx") eq_refl)
    as (e & s' & R & _ & Hn & Hh & _).
  exists e, s'. split; [exact R | split; [exact Hn | exact Hh]].
Defined.

Lemma none_query_reaches_the_prompts_witness :
  query (snd (Demo.run Demo.undecided 1 Demo.ctx None))
    = Some (lit "Please answer the query in the context.")
  /\ StreamlitLogger.query (st_logger (snd (Demo.run Demo.undecided 1 Demo.ctx None)))
       = lit "Please answer the query in the context."
  /\ nth_error (llm_calls (history (snd (Demo.run Demo.undecided 1 Demo.ctx None)))) 1
       = Some [ {| role := lit "system"; content := lit "You work in a REPL." |};
                {| role := lit "assistant";
                   content := lit "You responded with:" ++ nl ++ lit "think" |};
                Demo.prompt None 0 (Some true) ].
Proof.
  destruct (@none_query_reaches_the_prompts (Demo.collaborators Demo.undecided)
              Demo.ctx (Demo.rlm Demo.undecided 1))
    as (Q & L & _).
  split; [exact Q | split; [exact L |]]. vm_compute. reflexivity.
Defined.

(** The hypotheses of [completion_returns] and of [completion_exhausted]
    at work: a model that only ever thinks, three iterations. *)
Lemma completion_returns_witness :
  exists answer s',
    @completion Demo.steady Demo.ctx (Some Demo.q)
      (@__init__ Demo.steady StreamlitLogger.init None (lit "gpt-5")
         (lit "gpt-5-nano") 3)
      = (Ok answer, s').
Proof.
  apply (@completion_returns Demo.steady Demo.ctx (Some Demo.q) _ (None, lit "ctx")).
  - intros c request. exists c, (lit "think"). reflexivity.
  - reflexivity.
  - simpl. lia.
Defined.

Lemma completion_exhausted_witness :
  exists s2,
    Demo.run Demo.undecided 1 Demo.ctx (Some Demo.q) = (Ok (lit "done"), s2)
    /\ List.length (llm_calls (history s2)) = 2.
Proof.
  destruct (@completion_exhausted (Demo.collaborators Demo.undecided) Demo.ctx
              (Some Demo.q) (Demo.rlm Demo.undecided 1) (None, lit "ctx") 0
              (Some 0)
              (snd (@for_iteration_in (Demo.collaborators Demo.undecided)
                      (Some Demo.q) (seq 0 1) None (Demo.ready Demo.undecided 1))))
    as (requests & _ & Hl & _ & F).
  - reflexivity.
  - reflexivity.
  - vm_compute. reflexivity.
  - destruct (F [] (lit "done")) as (s2 & R & _ & Hc); [vm_compute; reflexivity |].
    exists s2. split; [exact R |].
    rewrite Hc, !length_app, Hl. reflexivity.
Defined.

(** * More of the code: the logger *)

Import Observed.

Section Logger.

Context {C : Collaborators}.

Lemma upto_prefix (n : nat) (s t : str) :
  n <= len s -> upto n (upto n s ++ t) = upto n s.
Proof.
  intros H. unfold upto, len in *. rewrite firstn_app, firstn_firstn.
  rewrite Nat.min_id, length_firstn.
  replace (n - Nat.min n (List.length s)) with 0 by lia.
  simpl. apply app_nil_r.
Qed.

Lemma count_app (A : Type) (f : A -> bool) (l1 l2 : list A) :
  count f (l1 ++ l2) = count f l1 + count f l2.
Proof. unfold count. rewrite filter_app. apply length_app. Qed.

(** X1.  [log_model_response] adds one response step and counts one
    more response.  The step shows the response itself when it has at
    most 800 characters, and otherwise exactly its first 800 characters
    followed by two newlines and the marker [*... (truncated)*]: never
    more than 819 characters, and always the same first 800 characters
    as the response. *)
Theorem model_response_display (response : str) (has_tool_calls : bool)
    (l : StreamlitLogger.t) :
  exists title shown,
    StreamlitLogger.steps
      (StreamlitLogger.log_model_response response has_tool_calls l)
    = StreamlitLogger.steps l
        ++ [StreamlitLogger.response_step title shown has_tool_calls true]
    /\ len shown <= 819
    /\ upto 800 shown = upto 800 response
    /\ (len response <= 800 -> shown = response)
    /\ (800 < len response ->
        shown = upto 800 response ++ nl ++ nl ++ lit "*... (truncated)*")
    /\ StreamlitLogger.conversation_step
         (StreamlitLogger.log_model_response response has_tool_calls l)
       = StreamlitLogger.conversation_step l + 1.
Proof.
  unfold StreamlitLogger.log_model_response, StreamlitLogger._render,
    StreamlitLogger.add_step, StreamlitLogger.add_status.
  cbn [StreamlitLogger.steps StreamlitLogger.conversation_step].
  destruct (800 <? len response) eqn:E.
  - apply Nat.ltb_lt in E. do 2 eexists. split; [reflexivity |].
    split; [| split; [| split; [| split; [| reflexivity]]]].
    + rewrite len_app, len_upto by lia. simpl. lia.
    + apply upto_prefix. lia.
    + intros H. lia.
    + intros _. reflexivity.
  - apply Nat.ltb_ge in E. do 2 eexists. split; [reflexivity |].
    split; [lia | split; [reflexivity | split; [reflexivity | split]]].
    + intros H. lia.
    + reflexivity.
Qed.

(** X2.  [log_code_execution] adds one code step.  The step shows the
    fragment itself when it has at most 500 characters, and otherwise
    exactly its first 500 characters followed by a newline and the
    marker [# ... (truncated)], never more than 518 characters; its
    output section is empty exactly when the fragment printed nothing,
    wrote no error and took no measurable time. *)
Theorem code_execution_display (code out err : str) (elapsed : time)
    (l : StreamlitLogger.t) :
  exists title shown output,
    StreamlitLogger.steps
      (StreamlitLogger.log_code_execution format_3f time_truthy code out err
         elapsed l)
    = StreamlitLogger.steps l
        ++ [StreamlitLogger.code_step title shown output true]
    /\ len shown <= 518
    /\ upto 500 shown = upto 500 code
    /\ (len code <= 500 -> shown = code)
    /\ (500 < len code ->
        shown = upto 500 code ++ nl ++ lit "# ... (truncated)")
    /\ (output = [] <-> out = [] /\ err = [] /\ time_truthy elapsed = false).
Proof.
  unfold StreamlitLogger.log_code_execution, StreamlitLogger._render,
    StreamlitLogger.add_step.
  cbn [StreamlitLogger.steps].
  do 3 eexists. split; [reflexivity |].
  split; [| split; [| split; [| split]]].
  - destruct (len code <=? 500) eqn:E.
    + apply Nat.leb_le in E. lia.
    + apply Nat.leb_gt in E. rewrite len_app, len_upto by lia. simpl. lia.
  - destruct (len code <=? 500) eqn:E.
    + reflexivity.
    + apply Nat.leb_gt in E. apply upto_prefix. lia.
  - intros H. apply Nat.leb_le in H. rewrite H. reflexivity.
  - intros H. apply Nat.leb_gt in H. rewrite H. reflexivity.
  - split.
    + intros H. destruct out as [| a out].
      * destruct err as [| b err].
        -- destruct (time_truthy elapsed); [discriminate H | auto].
        -- discriminate H.
      * discriminate H.
    + intros (Ho & He & Ht). subst out err. rewrite Ht. reflexivity.
Qed.

Ltac logger_step :=
  unfold logged, StreamlitLogger.log_query_start,
    StreamlitLogger.log_initial_messages, StreamlitLogger.log_model_response,
    StreamlitLogger.log_code_execution, StreamlitLogger.log_final_response,
    StreamlitLogger._render, StreamlitLogger.add_step,
    StreamlitLogger.add_status;
  cbn [StreamlitLogger.steps StreamlitLogger.conversation_step
       StreamlitLogger.query StreamlitLogger.status_placeholder].

Ltac count_one :=
  try rewrite count_app; try rewrite length_app; unfold count;
  cbn [filter is_response_step is_code_step List.length].

Lemma logged_conversation_step (c : logging) (l : StreamlitLogger.t) :
  StreamlitLogger.conversation_step (logged c l)
  = StreamlitLogger.conversation_step l
    + (if is_response_logged c then 1 else 0).
Proof. destruct c; logger_step; cbn [is_response_logged]; lia. Qed.

Lemma logged_response_steps (c : logging) (l : StreamlitLogger.t) :
  response_steps (logged c l)
  = response_steps l + (if is_response_logged c then 1 else 0).
Proof.
  destruct c; unfold response_steps; logger_step; count_one;
    cbn [is_response_logged]; lia.
Qed.

Lemma logged_steps (c : logging) (l : StreamlitLogger.t) :
  List.length (StreamlitLogger.steps (logged c l))
  = List.length (StreamlitLogger.steps l)
    + (if is_query_started c then 0 else 1).
Proof.
  destruct c; logger_step; count_one; cbn [is_query_started]; lia.
Qed.

Lemma logged_status (c : logging) (l : StreamlitLogger.t) :
  List.length (StreamlitLogger.status_placeholder (logged c l))
  = List.length (StreamlitLogger.status_placeholder l)
    + (if writes_status c then 1 else 0).
Proof.
  destruct c; logger_step; count_one; cbn [writes_status]; lia.
Qed.

Lemma count_cons (A : Type) (f : A -> bool) (a : A) (l : list A) :
  count f (a :: l) = (if f a then 1 else 0) + count f l.
Proof. unfold count. simpl. destruct (f a); reflexivity. Qed.

Lemma logged_all_counts (cs : list logging) :
  forall l,
    StreamlitLogger.conversation_step (logged_all cs l)
      = StreamlitLogger.conversation_step l + count is_response_logged cs
    /\ response_steps (logged_all cs l)
       = response_steps l + count is_response_logged cs
    /\ List.length (StreamlitLogger.steps (logged_all cs l))
         + count is_query_started cs
       = List.length (StreamlitLogger.steps l) + List.length cs
    /\ List.length (StreamlitLogger.status_placeholder (logged_all cs l))
       = List.length (StreamlitLogger.status_placeholder l)
         + count writes_status cs.
Proof.
  induction cs as [| c cs IH]; intros l.
  - unfold count. simpl. repeat split; lia.
  - change (logged_all (c :: cs) l) with (logged_all cs (logged c l)).
    destruct (IH (logged c l)) as (H1 & H2 & H3 & H4).
    rewrite logged_conversation_step in H1.
    rewrite logged_response_steps in H2.
    rewrite logged_steps in H3.
    rewrite logged_status in H4.
    rewrite !count_cons. cbn [List.length].
    destruct (is_response_logged c), (is_query_started c), (writes_status c);
      repeat split; lia.
Qed.

(** X3.  Whatever calls a logger has received since it was created, its
    step counter is the number of response steps it holds, which is the
    number of responses it was given; it holds one step per call other
    than [log_query_start], and wrote one status line per query start,
    response and final answer. *)
Theorem logger_keeps_count (cs : list logging) :
  let l := logged_all cs StreamlitLogger.init in
  StreamlitLogger.conversation_step l = response_steps l
  /\ StreamlitLogger.conversation_step l = count is_response_logged cs
  /\ List.length (StreamlitLogger.steps l) + count is_query_started cs
     = List.length cs
  /\ List.length (StreamlitLogger.status_placeholder l)
     = count writes_status cs.
Proof.
  destruct (logged_all_counts cs StreamlitLogger.init) as (H1 & H2 & H3 & H4).
  change (StreamlitLogger.conversation_step StreamlitLogger.init) with 0 in H1.
  change (response_steps StreamlitLogger.init) with 0 in H2.
  change (List.length (StreamlitLogger.steps StreamlitLogger.init)) with 0 in H3.
  change (List.length (StreamlitLogger.status_placeholder StreamlitLogger.init))
    with 0 in H4.
  cbv zeta. repeat split; lia.
Qed.

Lemma logged_all_query (cs : list logging) :
  forall l,
    forallb (fun c => negb (is_query_started c)) cs = true ->
    StreamlitLogger.query (logged_all cs l) = StreamlitLogger.query l.
Proof.
  induction cs as [| c cs IH]; intros l H.
  - reflexivity.
  - simpl in H. apply andb_prop in H. destruct H as [Hc Hcs].
    change (logged_all (c :: cs) l) with (logged_all cs (logged c l)).
    rewrite (IH _ Hcs). destruct c; try reflexivity. discriminate Hc.
Qed.

(** X4.  The query a logger holds is the one of the last
    [log_query_start] it received: no other method replaces it. *)
Theorem logger_holds_last_query (before after : list logging) (q : str)
    (l : StreamlitLogger.t) :
  forallb (fun c => negb (is_query_started c)) after = true ->
  StreamlitLogger.query (logged_all (before ++ query_started q :: after) l) = q.
Proof.
  intros H. unfold logged_all. rewrite fold_left_app. simpl.
  fold (logged_all before l).
  fold (logged_all after
          (StreamlitLogger.log_query_start q (logged_all before l))).
  rewrite (logged_all_query after _ H). reflexivity.
Qed.

Lemma listed_initial_content_of_messages (msgs : list message) :
  forall k,
    Listed.initial_content upper k (map Listed.of_message msgs)
    = StreamlitLogger.initial_content upper k msgs.
Proof.
  induction msgs as [| m rest IH]; intros k; simpl.
  - reflexivity.
  - rewrite IH. reflexivity.
Qed.

Lemma log_initial_messages_of_messages (msgs : list message)
    (l : StreamlitLogger.t) :
  Listed.log_initial_messages upper (map Listed.of_message msgs) l
  = StreamlitLogger.log_initial_messages upper msgs l.
Proof.
  unfold Listed.log_initial_messages, StreamlitLogger.log_initial_messages.
  rewrite listed_initial_content_of_messages. reflexivity.
Qed.

(** What an entry names and shows for a message. *)
Lemma initial_content_entries (msgs : list Listed.entry) :
  forall k,
  exists entries,
    Listed.initial_content upper k msgs = List.concat entries
    /\ List.length entries = List.length msgs
    /\ forall i msg,
         nth_error msgs i = Some msg ->
         exists named text shown,
           nth_error entries i
           = Some (lit "**[" ++ of_nat (k + i + 1) ++ lit "] "
                     ++ upper named ++ lit ":**" ++ nl ++ shown
                     ++ nl ++ nl)
           /\ named = match Listed.get_role msg with
                      | Some r => r
                      | None => lit "unknown"
                      end
           /\ text = match Listed.get_content msg with
                     | Some c => c
                     | None => []
                     end
           /\ (len text <= 300 -> shown = text)
           /\ (300 < len text -> shown = upto 300 text ++ lit "...").
Proof.
  induction msgs as [| m rest IH]; intros k.
  - exists []. split; [reflexivity | split; [reflexivity |]].
    intros i msg H. destruct i; discriminate H.
  - destruct (IH (S k)) as (entries & Hc & Hl & Hn).
    exists (Listed.initial_entry upper k m :: entries).
    split; [simpl; rewrite Hc; reflexivity | split; [simpl; lia |]].
    intros i msg H. destruct i as [| i].
    + inversion H. subst msg. clear H.
      unfold Listed.initial_entry. cbv zeta. rewrite Nat.add_0_r.
      destruct (300 <? len match Listed.get_content m with
                               | Some c => c
                               | None => []
                               end) eqn:E.
      * apply Nat.ltb_lt in E. do 3 eexists.
        split; [reflexivity | split; [reflexivity | split; [reflexivity |]]].
        split; [intros L; lia | intros _; reflexivity].
      * apply Nat.ltb_ge in E. do 3 eexists.
        split; [reflexivity | split; [reflexivity | split; [reflexivity |]]].
        split; [intros _; reflexivity | intros L; lia].
    + simpl in H. destruct (Hn i msg H) as (named & text & shown & E & B).
      exists named, text, shown. split; [| exact B].
      simpl. rewrite E. replace (k + S i + 1) with (S k + i + 1) by lia.
      reflexivity.
Qed.

(** X5.  [log_initial_messages] adds one system step whose content is
    one entry per message, in order.  The entry of the message at
    position [i] is numbered [i + 1]; it names the role in upper case,
    [unknown] when the message has no role; it shows the content (the
    empty text when the message has none) as it is when it has at most
    300 characters, and otherwise exactly its first 300 characters
    followed by three dots. *)
Theorem initial_messages_summary (msgs : list Listed.entry)
    (l : StreamlitLogger.t) :
  exists title entries,
    StreamlitLogger.steps (Listed.log_initial_messages upper msgs l)
    = StreamlitLogger.steps l
        ++ [StreamlitLogger.system_step title (List.concat entries) false]
    /\ List.length entries = List.length msgs
    /\ forall i msg,
         nth_error msgs i = Some msg ->
         exists named text shown,
           nth_error entries i
           = Some (lit "**[" ++ of_nat (i + 1) ++ lit "] "
                     ++ upper named ++ lit ":**" ++ nl ++ shown
                     ++ nl ++ nl)
           /\ named = match Listed.get_role msg with
                      | Some r => r
                      | None => lit "unknown"
                      end
           /\ text = match Listed.get_content msg with
                     | Some c => c
                     | None => []
                     end
           /\ (len text <= 300 -> shown = text)
           /\ (300 < len text -> shown = upto 300 text ++ lit "...").
Proof.
  destruct (initial_content_entries msgs 0) as (entries & Hc & Hl & Hn).
  eexists. exists entries.
  unfold Listed.log_initial_messages, StreamlitLogger._render,
    StreamlitLogger.add_step. cbn [StreamlitLogger.steps]. rewrite Hc.
  split; [reflexivity | split; [exact Hl | exact Hn]].
Qed.

End Logger.

(** * More of the code: faults, bounds and books of a run *)

Section Run.

Context {C : Collaborators}.

Lemma bind_inv (A B : Type) (m : M A) (k : A -> M B) s b s' :
  bind m k s = (Ok b, s') ->
  exists a s1, m s = (Ok a, s1) /\ k a s1 = (Ok b, s').
Proof.
  unfold bind. destruct (m s) as [[a | e] s1]; intros H.
  - exists a, s1. auto.
  - discriminate H.
Qed.

Lemma preserving_bind (A B : Type) (R : state -> state -> Prop)
    (m : M A) (k : A -> M B) :
  (forall s1 s2 s3, R s1 s2 -> R s2 s3 -> R s1 s3) ->
  preserving R m -> (forall a, preserving R (k a)) -> preserving R (bind m k).
Proof.
  intros T Hm Hk s. unfold bind. specialize (Hm s).
  destruct (m s) as [[a | e] s1]; simpl in *.
  - eapply T; [exact Hm | apply Hk].
  - exact Hm.
Qed.


(** X7.  A transport fault in the pass numbered [k] of the loop ends
    the run: [completion] raises that fault; the request is in the
    history, and the conversation, the logger and the environment are
    as the pass found them. *)
Theorem transport_fault_ends_run (ctx : raw_context) (q : option str)
    (s : state) (packaged : context_data * context_str) (k : nat)
    (it : option nat) (s1 : state) (c : client) (e : transport_fault) :
  convert_context_for_repl ctx = inr packaged ->
  k < Z.to_nat (_max_iterations s) ->
  for_iteration_in q (seq 0 k) None (entered q packaged s)
    = (Ok (exhausted it), s1) ->
  llm_completion (llm s1) (messages s1 ++ [next_action_prompt q k None])
    = (c, inl e) ->
  exists s2,
    completion ctx q s = (Raise (TransportFault e), s2)
    /\ history s2 =
         history s1 ++ [llm_call (messages s1 ++ [next_action_prompt q k None])]
    /\ messages s2 = messages s1
    /\ st_logger s2 = st_logger s1
    /\ repl_env s2 = repl_env s1.
Proof.
  intros P K R L. eexists. split.
  - rewrite completion_spec, P. unfold range.
    replace (Z.to_nat (_max_iterations s))
      with (k + S (Z.to_nat (_max_iterations s) - S k)) by lia.
    rewrite seq_app. unfold bind at 1.
    rewrite for_iteration_in_app, R. simpl for_iteration_in.
    unfold bind at 1. unfold loop_body. unfold bind at 1.
    pose proof (request_step_spec q k s1) as Q. cbv zeta in Q.
    rewrite L in Q. rewrite Q. reflexivity.
  - simpl. auto.
Qed.

(** X8.  A transport fault in the request of the forced finalize path:
    [completion] raises it; the forced instruction stays appended to
    the conversation, and no final answer is logged. *)
Theorem forced_request_fault (ctx : raw_context) (q : option str) (s : state)
    (packaged : context_data * context_str) (n : nat) (it : option nat)
    (s1 : state) (c : client) (e : transport_fault) :
  convert_context_for_repl ctx = inr packaged ->
  Z.to_nat (_max_iterations s) = S n ->
  for_iteration_in q (seq 0 (S n)) None (entered q packaged s)
    = (Ok (exhausted it), s1) ->
  llm_completion (llm s1) (messages s1 ++ [next_action_prompt q n (Some true)])
    = (c, inl e) ->
  exists s2,
    completion ctx q s = (Raise (TransportFault e), s2)
    /\ messages s2 = messages s1 ++ [next_action_prompt q n (Some true)]
    /\ st_logger s2 = st_logger s1.
Proof.
  intros P N R L.
  destruct (for_iteration_in_requests q (S n) 0 None (entered q packaged s))
    as (requests & _ & _ & _ & He).
  rewrite R in He. destruct (He it eq_refl) as [_ E]. simpl in E. subst it.
  eexists. split.
  - rewrite completion_spec, P. unfold range. rewrite N.
    rewrite (@bind_Ok _ _ _ _ _ _ _ _ R).
    unfold after_loop, bind, messages_append, modify, get, llm_request.
    simpl. rewrite L. reflexivity.
  - simpl. auto.
Qed.

(** X9.  Whatever a run does, returning or raising, the conversation it
    leaves in the object starts with the system prompt, and it is the
    same whatever conversation the object held before: that one is
    replaced, not kept, so what follows the prompt was appended by this
    run.  When the packaging of the context faults, the conversation
    left is the system prompt alone. *)
Theorem conversation_starts_with_system_prompt (ctx : raw_context)
    (q : option str) (s : state) :
  (exists added,
     messages (snd (completion ctx q s)) = build_system_prompt ++ added)
  /\ (forall earlier,
        messages (snd (completion ctx q (set_messages earlier s)))
        = messages (snd (completion ctx q s)))
  /\ (forall pf,
        convert_context_for_repl ctx = inl pf ->
        messages (snd (completion ctx q s)) = build_system_prompt).
Proof.
  split; [| split].
  - rewrite completion_spec.
    destruct (convert_context_for_repl ctx) as [e | packaged].
    + exists []. simpl. symmetry. apply app_nil_r.
    + assert (K : keeping (bind (for_iteration_in q (range (_max_iterations s)) None)
                             (after_loop q))).
      { apply keeping_bind; [apply keeping_for_iteration_in | apply keeping_after_loop]. }
      destruct (K (entered q packaged s)) as (_ & _ & _ & _ & (added & H) & _).
      exists added. exact H.
  - intros earlier. rewrite !completion_spec.
    destruct (convert_context_for_repl ctx) as [e | packaged]; reflexivity.
  - intros pf P. rewrite completion_spec, P. reflexivity.
Qed.

(** X10.  A run does not see the conversation, the stored query or the
    environment that an earlier use left in the object: its result is
    the same without them, and so is the object it leaves when the
    context is packaged. *)
Theorem run_starts_afresh (ctx : raw_context) (q : option str) (s : state)
    (earlier : list message) (asked : option str) (used : option env) :
  let s0 := set_messages earlier (set_query asked (set_repl_env used s)) in
  fst (completion ctx q s0) = fst (completion ctx q s)
  /\ (forall packaged,
        convert_context_for_repl ctx = inr packaged ->
        completion ctx q s0 = completion ctx q s).
Proof.
  simpl. rewrite !completion_spec.
  destruct (convert_context_for_repl ctx) as [e | packaged].
  - split; [reflexivity | intros p H; discriminate H].
  - split; [reflexivity | intros p H; reflexivity].
Qed.

(** X12.  When the iteration bound of the object is not positive, any
    run on a context that is packaged raises the [NameError] of the
    unbound loop variable, with the object as the setup left it:
    [range] of a negative bound is empty as well. *)
Theorem nonpositive_bound_raises (ctx : raw_context) (q : option str)
    (s : state) (packaged : context_data * context_str) :
  convert_context_for_repl ctx = inr packaged ->
  (_max_iterations s <= 0)%Z ->
  completion ctx q s
  = (Raise (UnboundLocalError (lit "iteration")), entered q packaged s).
Proof.
  intros P N. rewrite completion_spec, P. unfold range.
  replace (Z.to_nat (_max_iterations s)) with 0 by lia. reflexivity.
Qed.

(** X13.  A run makes at most [max_iterations] model requests in the
    loop and one after it, whatever the model answers and however the
    run ends. *)
Theorem requests_are_bounded (ctx : raw_context) (q : option str) (s : state) :
  List.length (llm_calls (history (snd (completion ctx q s))))
  <= List.length (llm_calls (history s)) + Z.to_nat (_max_iterations s) + 1.
Proof.
  destruct (completion_requests ctx q s) as (lr & fr & Hc & Hl & _ & Hf & _).
  rewrite Hc, !length_app. lia.
Qed.

(** ** The books of the loop *)

Lemma balanced_refl (s : state) : balanced s s.
Proof. unfold balanced. repeat split; lia. Qed.

Lemma balanced_trans (s1 s2 s3 : state) :
  balanced s1 s2 -> balanced s2 s3 -> balanced s1 s3.
Proof. unfold balanced. intros (A1 & B1 & C1 & D1) (A2 & B2 & C2 & D2). repeat split; lia. Qed.

Lemma with_role_snoc (r : str) (msgs : list message) (m : message) :
  with_role r (msgs ++ [m])
  = with_role r msgs + (if str_eqb (role m) r then 1 else 0).
Proof. unfold with_role. rewrite count_app, count_cons. unfold count. simpl. lia. Qed.

Lemma executions_snoc (h : list call) (c : call) :
  executions (h ++ [c]) = executions h + (if is_exec_call c then 1 else 0).
Proof. unfold executions. rewrite count_app, count_cons. unfold count. simpl. lia. Qed.

Ltac unfold_logger :=
  unfold StreamlitLogger.log_model_response, StreamlitLogger.log_code_execution,
    StreamlitLogger.log_final_response, StreamlitLogger._render,
    StreamlitLogger.add_step, StreamlitLogger.add_status;
  cbn [StreamlitLogger.steps StreamlitLogger.conversation_step
       StreamlitLogger.query StreamlitLogger.status_placeholder].

Lemma log_model_response_counts (response : str) (has : bool) (l : StreamlitLogger.t) :
  StreamlitLogger.conversation_step (StreamlitLogger.log_model_response response has l)
  = StreamlitLogger.conversation_step l + 1
  /\ code_steps (StreamlitLogger.log_model_response response has l) = code_steps l.
Proof.
  unfold code_steps. unfold_logger. rewrite count_app. unfold count.
  cbn [filter is_code_step List.length]. split; lia.
Qed.

Lemma log_code_execution_counts (code out err : str) (elapsed : time)
    (l : StreamlitLogger.t) :
  StreamlitLogger.conversation_step
    (StreamlitLogger.log_code_execution format_3f time_truthy code out err elapsed l)
  = StreamlitLogger.conversation_step l
  /\ code_steps
       (StreamlitLogger.log_code_execution format_3f time_truthy code out err elapsed l)
     = code_steps l + 1.
Proof.
  unfold code_steps. unfold_logger. rewrite count_app. unfold count.
  cbn [filter is_code_step List.length]. split; lia.
Qed.

Lemma log_final_response_counts (response : str) (l : StreamlitLogger.t) :
  StreamlitLogger.conversation_step (StreamlitLogger.log_final_response response l)
  = StreamlitLogger.conversation_step l
  /\ code_steps (StreamlitLogger.log_final_response response l) = code_steps l.
Proof.
  unfold code_steps. unfold_logger. rewrite count_app. unfold count.
  cbn [filter is_code_step List.length]. split; lia.
Qed.

Ltac state_fields :=
  cbn [messages st_logger history repl_env llm set_messages set_st_logger
       set_repl_env set_llm set_query record_call].

Lemma balanced_process_blocks (blocks : list str) :
  preserving balanced (process_blocks blocks).
Proof.
  induction blocks as [| b rest IH]; intros s.
  - apply balanced_refl.
  - destruct (repl_env s) as [e |] eqn:E.
    + rewrite (process_blocks_cons b rest s E).
      eapply balanced_trans; [| apply IH].
      cbv zeta. unfold balanced. state_fields.
      rewrite !with_role_snoc, executions_snoc, length_app.
      match goal with |- context [StreamlitLogger.log_code_execution ?f ?g ?a ?b ?c ?d ?l] =>
        destruct (log_code_execution_counts a b c d l) as [L1 L2] end.
      rewrite L1, L2.
      change (str_eqb (role (tool_response (snd (code_execution e b))))
                (lit "assistant")) with false.
      change (str_eqb (role (tool_response (snd (code_execution e b))))
                (lit "user")) with true.
      cbn [is_exec_call List.length]. repeat split; lia.
    + simpl process_blocks. unfold bind at 1. unfold repl_code_execution.
      rewrite E. apply balanced_refl.
Qed.

Lemma assign_processed_result (response : str) (blocks : list str) (s : state) :
  bind (_process_code_with_logging response blocks)
    (fun msgs => modify (set_messages msgs)) s
  = match
      process_blocks blocks
        (set_messages
           (messages s ++ [ {| role := lit "assistant"; content := response |} ]) s)
    with
    | (Ok _, s2) => (Ok tt, s2)
    | (Raise e, s2) => (Raise e, s2)
    end.
Proof.
  unfold _process_code_with_logging, bind, messages_append, modify, get, ret.
  destruct (process_blocks blocks _) as [[[] | e] s2].
  - rewrite set_messages_same. reflexivity.
  - reflexivity.
Qed.

Lemma balanced_final_answer_check (response : str) :
  preserving balanced (final_answer_check response).
Proof.
  intros s. unfold final_answer_check.
  destruct (repl_env s) as [e |].
  - destruct (check_for_final_answer response e) as [e1 a].
    unfold balanced. cbv zeta. cbn [snd]. state_fields.
    rewrite executions_snoc. cbn [is_exec_call]. repeat split; lia.
  - unfold balanced. cbv zeta. cbn [snd]. state_fields.
    rewrite executions_snoc. cbn [is_exec_call]. repeat split; lia.
Qed.

Lemma balanced_log_final_response (a : str) :
  preserving balanced (log (StreamlitLogger.log_final_response a)).
Proof.
  intros s. unfold log, modify, balanced. cbn [snd]. state_fields.
  destruct (log_final_response_counts a (st_logger s)) as [L1 L2].
  rewrite L1, L2. repeat split; lia.
Qed.

Lemma balanced_ret (A : Type) (a : A) : preserving balanced (ret a).
Proof. intros s. apply balanced_refl. Qed.

Lemma balanced_fold_response (response : str) :
  preserving balanced (fold_response response).
Proof.
  intros s. unfold fold_response.
  set (s0 := set_st_logger
               (StreamlitLogger.log_model_response response
                  (is_not_None (find_code_blocks response)) (st_logger s)) s).
  rewrite (@bind_Ok _ _ _ _ _ s tt s0) by reflexivity.
  destruct (log_model_response_counts response
              (is_not_None (find_code_blocks response)) (st_logger s)) as [L1 L2].
  assert (Tail : forall s2,
             balanced s2
               (snd (bind (final_answer_check response)
                       (fun final_answer =>
                          if truthy final_answer
                          then
                            match final_answer with
                            | Some a =>
                                bind (log (StreamlitLogger.log_final_response a))
                                  (fun _ => ret (Some a))
                            | None => ret None
                            end
                          else ret None) s2))).
  { intros s2. apply (@preserving_bind _ _ balanced).
    - apply balanced_trans.
    - apply balanced_final_answer_check.
    - intros fa. destruct (truthy fa); [| apply balanced_ret].
      destruct fa as [a |]; [| apply balanced_ret].
      apply (@preserving_bind _ _ balanced);
        [apply balanced_trans | apply balanced_log_final_response |].
      intros _. apply balanced_ret. }
  assert (Ahead : forall m,
             role m = lit "assistant" ->
             balanced s (set_messages (messages s0 ++ [m]) s0)).
  { intros m Hm. unfold balanced. subst s0. state_fields.
    rewrite !with_role_snoc, length_app, Hm, L1, L2.
    change (str_eqb (lit "assistant") (lit "assistant")) with true.
    change (str_eqb (lit "assistant") (lit "user")) with false.
    cbn [List.length]. repeat split; lia. }
  unfold bind at 1.
  destruct (find_code_blocks response) as [blocks |].
  - rewrite assign_processed_result.
    pose proof (balanced_process_blocks blocks
                  (set_messages
                     (messages s0
                        ++ [ {| role := lit "assistant"; content := response |} ]) s0))
      as B.
    pose proof (Ahead {| role := lit "assistant"; content := response |} eq_refl)
      as A.
    destruct (process_blocks blocks _) as [[[] | e] s2]; cbn [snd] in B.
    + eapply balanced_trans; [exact A |].
      eapply balanced_trans; [exact B | apply Tail].
    + eapply balanced_trans; [exact A | exact B].
  - unfold messages_append at 1. unfold modify at 1.
    eapply balanced_trans; [| apply Tail].
    apply (Ahead {| role := lit "assistant";
                    content := lit "You responded with:" ++ nl ++ response |}
             eq_refl).
Qed.

Lemma balanced_request_step (q : option str) (i : nat) :
  preserving balanced (request_step q i).
Proof.
  intros s. rewrite request_step_spec. unfold balanced. state_fields.
  cbn [snd]. state_fields. rewrite executions_snoc. cbn [is_exec_call].
  repeat split; lia.
Qed.

(** X11.  Over the passes of the loop, however they end, the
    conversation gains exactly one assistant message per model response
    that was logged, exactly one user message per fragment that was
    executed, and no other message; and the logger gains exactly one
    code step per executed fragment. *)
Theorem loop_keeps_the_books (q : option str) (indices : list nat)
    (it : option nat) (s : state) :
  balanced s (snd (for_iteration_in q indices it s)).
Proof.
  revert it s. induction indices as [| i rest IH]; intros it s.
  - apply balanced_refl.
  - simpl for_iteration_in. apply (@preserving_bind _ _ balanced).
    + apply balanced_trans.
    + unfold loop_body. apply (@preserving_bind _ _ balanced).
      * apply balanced_trans.
      * apply balanced_request_step.
      * apply balanced_fold_response.
    + intros [a |]; [apply balanced_ret | intros s1; apply IH].
Qed.

End Run.

(** * More of the code: how a run ends *)

Section Outcome.

Context {C : Collaborators}.

Lemma fold_response_answer (response a : str) (s s' : state) :
  fold_response response s = (Ok (Some a), s') ->
  exists l, st_logger s' = StreamlitLogger.log_final_response a l.
Proof.
  unfold fold_response. intros H.
  apply bind_inv in H. destruct H as (u0 & s0 & _ & H).
  apply bind_inv in H. destruct H as (u1 & s1 & _ & H).
  apply bind_inv in H. destruct H as (fa & s2 & _ & H).
  destruct (truthy fa); [| discriminate H].
  destruct fa as [a0 |]; [| discriminate H].
  unfold bind, log, modify, ret in H. inversion H. subst.
  eexists. reflexivity.
Qed.

Lemma loop_answer (q : option str) (indices : list nat) :
  forall it s a s',
    for_iteration_in q indices it s = (Ok (returned a), s') ->
    exists l, st_logger s' = StreamlitLogger.log_final_response a l.
Proof.
  induction indices as [| i rest IH]; intros it s a s' H.
  - discriminate H.
  - simpl in H. apply bind_inv in H. destruct H as ([a0 |] & s1 & B & H).
    + inversion H. subst. unfold loop_body in B.
      apply bind_inv in B. destruct B as (r & s0 & _ & B).
      eapply fold_response_answer. exact B.
    + eapply IH. exact H.
Qed.

(** X14.  Whenever [completion] returns an answer, by a final answer
    found in the loop or by the forced finalize path, logging that
    answer was the last thing done to the logger: its last step is the
    final step with the returned text, and its last status line
    announces the final answer. *)
Theorem returned_answer_is_logged (ctx : raw_context) (q : option str)
    (s s' : state) (a : str) :
  completion ctx q s = (Ok a, s') ->
  exists earlier announced,
    StreamlitLogger.steps (st_logger s')
    = earlier
        ++ [StreamlitLogger.final_step ([127919%N] ++ lit " FINAL ANSWER") a true]
    /\ StreamlitLogger.status_placeholder (st_logger s')
       = announced
           ++ [StreamlitLogger.success
                 ([127919%N] ++ lit " **Final answer found!**")].
Proof.
  intros H.
  assert (L : exists l, st_logger s' = StreamlitLogger.log_final_response a l).
  { rewrite completion_spec in H.
    destruct (convert_context_for_repl ctx) as [e | packaged]; [discriminate H |].
    apply bind_inv in H. destruct H as (exit & s1 & R & H).
    destruct exit as [a0 | [i |]].
    - inversion H. subst. eapply loop_answer. exact R.
    - unfold after_loop in H.
      apply bind_inv in H. destruct H as (u0 & s2 & _ & H).
      apply bind_inv in H. destruct H as (s3 & s4 & _ & H).
      apply bind_inv in H. destruct H as (text & s5 & _ & H).
      unfold bind, log, modify, ret in H. inversion H. subst.
      eexists. reflexivity.
    - discriminate H. }
  destruct L as (l & E). rewrite E.
  do 2 eexists. split; reflexivity.
Qed.

Lemma loop_raises_transport (q : option str) (indices : list nat) :
  forall it s e ex s',
    repl_env s = Some e ->
    for_iteration_in q indices it s = (Raise ex, s') ->
    exists tf, ex = TransportFault tf.
Proof.
  induction indices as [| i rest IH]; intros it s e ex s' E H.
  - discriminate H.
  - simpl in H.
    destruct (llm_completion (llm s) (messages s ++ [next_action_prompt q i None]))
      as [c [tf | response]] eqn:L.
    + unfold bind at 1 in H. unfold loop_body in H. unfold bind at 1 in H.
      pose proof (request_step_spec q i s) as Q. cbv zeta in Q.
      rewrite L in Q. rewrite Q in H. inversion H. exists tf. reflexivity.
    + destruct (loop_body_spec q i s E L) as (s1 & B & _ & _ & He & _).
      rewrite (@bind_Ok _ _ _ _ _ _ _ _ B) in H.
      destruct (detected response e) as [a |]; [discriminate H |].
      eapply IH; [exact He | exact H].
Qed.

(** X15.  The only ways a run fails: a fault of the packager, a fault
    of the transport, or the [NameError] of the unbound loop variable,
    and this last one only when the iteration bound is not positive.
    In particular a run never fails on an unbound environment. *)
Theorem failures_of_a_run (ctx : raw_context) (q : option str) (s s' : state)
    (ex : exn) :
  completion ctx q s = (Raise ex, s') ->
  (exists pf, convert_context_for_repl ctx = inl pf /\ ex = PackagingFault pf)
  \/ (exists tf, ex = TransportFault tf)
  \/ (ex = UnboundLocalError (lit "iteration") /\ (_max_iterations s <= 0)%Z).
Proof.
  intros H. rewrite completion_spec in H.
  destruct (convert_context_for_repl ctx) as [pf | packaged].
  - left. inversion H. exists pf. auto.
  - right. unfold bind, range in H.
    destruct (for_iteration_in_requests q (Z.to_nat (_max_iterations s)) 0 None
                (entered q packaged s)) as (requests & _ & _ & _ & He).
    destruct (for_iteration_in q (seq 0 (Z.to_nat (_max_iterations s))) None
                (entered q packaged s)) as [[[a | [i |]] | e] s1] eqn:R.
    + discriminate H.
    + destruct (after_loop_forced q i s1) as (s2 & F & _). cbv zeta in F.
      rewrite F in H.
      destruct (snd (llm_completion (llm s1) _)) as [tf | text];
        [| discriminate H].
      left. inversion H. exists tf. reflexivity.
    + right. simpl in H. inversion H. split; [reflexivity |].
      destruct (He None eq_refl) as [_ E].
      destruct (Z.to_nat (_max_iterations s)) eqn:N; [lia | discriminate E].
    + left. inversion H. subst.
      eapply (@loop_raises_transport q _ None (entered q packaged s)); [reflexivity | exact R].
Qed.

(** X16.  The user message built from the result of a fragment never
    has more than 2544 characters, however much the fragment printed. *)
Theorem tool_response_is_bounded (r : REPLResult time) :
  len (content (tool_response r)) <= 2544.
Proof.
  unfold tool_response. cbn [content].
  rewrite truncated_stdout_upto, truncated_stderr_upto.
  rewrite !len_app. unfold upto, len. rewrite !length_firstn.
  change (List.length (lit "REPL environment returned:")) with 26.
  change (List.length (lit "stdout: ")) with 8.
  change (List.length (lit "stderr: ")) with 8.
  change (List.length nl) with 1. lia.
Qed.

End Outcome.

(** * More of the code: the example that [main] loads *)

Section LoadExample.

Import Example.

Variable rng : Type.
Variable next : rng -> N * rng.

Lemma randint_spec (a b : N) (g : rng) :
  (a <= b)%N ->
  exists x,
    randint next a b g = Done ((a + x)%N, snd (next g)) /\ (a + x <= b)%N.
Proof.
  intros H. unfold randint, randbelow.
  destruct (N.ltb_spec b a) as [L | L]; [lia |].
  destruct (next g) as [x g']. exists (x mod (b - a + 1))%N.
  split; [reflexivity |].
  assert (x mod (b - a + 1) < b - a + 1)%N by (apply N.mod_upper_bound; lia).
  lia.
Qed.

Lemma no_newline_one_line (s : str) : no_newline s = true -> one_line s.
Proof.
  unfold no_newline, one_line. intros H I.
  rewrite forallb_forall in H. specialize (H _ I). discriminate H.
Qed.

Lemma one_line_app (s t : str) : one_line s -> one_line t -> one_line (s ++ t).
Proof.
  unfold one_line. intros Hs Ht I. apply in_app_or in I. tauto.
Qed.

Lemma one_line_word (i : nat) : one_line (nth i random_words []).
Proof.
  apply no_newline_one_line.
  do 7 (destruct i as [| i]; [reflexivity |]). destruct i; reflexivity.
Qed.

Lemma one_line_join_words (ws : list str) :
  Forall one_line ws -> one_line (join (lit " ") ws).
Proof.
  induction 1 as [| w ws Hw Hws IH].
  - intros [].
  - destruct ws as [| w' ws']; [exact Hw |].
    change (join (lit " ") (w :: w' :: ws'))
      with (w ++ lit " " ++ join (lit " ") (w' :: ws')).
    apply one_line_app; [exact Hw |].
    apply one_line_app; [apply no_newline_one_line; reflexivity | exact IH].
Qed.

Lemma line_words_one_line (k : nat) :
  forall g, Forall one_line (fst (line_words next k g)).
Proof.
  induction k as [| k IH]; intros g; simpl.
  - constructor.
  - unfold choice, randbelow. destruct (next g) as [x g1].
    specialize (IH g1). destruct (line_words next k g1) as [ws g2].
    simpl in *. constructor; [apply one_line_word | exact IH].
Qed.

Lemma filler_lines (n : nat) :
  forall g,
    List.length (fst (filler next n g)) = n
    /\ Forall one_line (fst (filler next n g)).
Proof.
  induction n as [| n IH]; intros g; simpl.
  - split; [reflexivity | constructor].
  - destruct (@randint_spec 3 8 g) as (x & R & _); [lia |].
    rewrite R.
    pose proof (line_words_one_line (N.to_nat (3 + x)) (snd (next g))) as W.
    destruct (line_words next (N.to_nat (3 + x)) (snd (next g))) as [ws g2].
    destruct (IH g2) as [L F].
    destruct (filler next n g2) as [ls g3]. simpl in *.
    split; [lia |]. constructor; [apply one_line_join_words; exact W | exact F].
Qed.

Lemma set_item_spec (x : str) (l : list str) :
  forall i,
    i < List.length l ->
    exists l',
      set_item l i x = Some l'
      /\ List.length l' = List.length l
      /\ nth_error l' i = Some x
      /\ (Forall one_line l -> one_line x -> Forall one_line l').
Proof.
  induction l as [| y rest IH]; intros i H; simpl in H.
  - lia.
  - destruct i as [| j].
    + exists (x :: rest). repeat split; auto.
      intros F Hx. inversion F. constructor; assumption.
    + destruct (IH j) as (l' & S & L & N & F); [lia |].
      exists (y :: l'). simpl. rewrite S.
      repeat split; auto.
      intros F' Hx. inversion F'. constructor; auto.
Qed.

Lemma set_item_out_of_range (x : str) (l : list str) :
  forall i, List.length l <= i -> set_item l i x = None.
Proof.
  induction l as [| y rest IH]; intros i H; simpl in *.
  - reflexivity.
  - destruct i as [| j]; [lia |]. rewrite IH by lia. reflexivity.
Qed.

Lemma digits_one_line (d : Decimal.uint) :
  one_line (lit (NilEmpty.string_of_uint d)).
Proof.
  unfold one_line.
  induction d; simpl; intros I; try contradiction;
    destruct I as [I | I]; try discriminate I; auto.
Qed.

(** What [load_example] does once the two bounds of the position are
    known and lie within the lines. *)
Lemma load_example_spec (st : session) (g : rng) (n : N) (low high : Z) :
  match example_size st with Some m => m | None => 1000%N end = n ->
  int_times n float_0_4 = Some low ->
  int_times n float_0_6 = Some high ->
  (0 <= low <= high)%Z ->
  (high < Z.of_N n)%Z ->
  exists st' g' drawn position lines,
    load_example next st g = Done (st', g')
    /\ (1000000 <= drawn <= 9999999)%N
    /\ example_answer st' = Some (str_of_N drawn)
    /\ example_num_lines st' = Some n
    /\ query_input st' = lit "I'm looking for a magic number. What is it?"
    /\ context_input st' = join nl lines
    /\ List.length lines = N.to_nat n
    /\ Forall one_line lines
    /\ nth_error lines (N.to_nat position)
       = Some (lit "The magic number is " ++ str_of_N drawn)
    /\ (low <= Z.of_N position <= high)%Z.
Proof.
  intros Hn Hl Hh B1 B2. unfold load_example.
  destruct (@randint_spec 1000000 9999999 g) as (x & R & Bx); [lia |].
  rewrite R, Hn.
  destruct (filler_lines (N.to_nat n) (snd (next g))) as [L F].
  destruct (filler next (N.to_nat n) (snd (next g))) as [lines g2].
  simpl in L, F. rewrite Hl, Hh.
  destruct (@randint_spec (Z.to_N low) (Z.to_N high) g2) as (y & R2 & By); [lia |].
  rewrite R2.
  destruct (@set_item_spec (lit "The magic number is " ++ str_of_N (1000000 + x))
              lines (N.to_nat (Z.to_N low + y)))
    as (lines' & S & L' & N' & F'); [lia |].
  rewrite S.
  exists {| example_size := example_size st;
            context_input := join nl lines';
            query_input := lit "I'm looking for a magic number. What is it?";
            example_answer := Some (str_of_N (1000000 + x));
            example_num_lines := Some n |}.
  exists (snd (next g2)), (1000000 + x)%N, (Z.to_N low + y)%N, lines'.
  split; [reflexivity |]. split; [lia |].
  do 4 (split; [reflexivity |]).
  split; [lia |]. split.
  - apply F'; [exact F |].
    apply one_line_app; [apply no_newline_one_line; reflexivity |].
    apply digits_one_line.
  - split; [exact N' | lia].
Qed.

(** X17.  For every size that the slider offers (and for the default
    size when the key is not set), whatever the generator draws,
    [load_example] succeeds: the answer is a number of seven digits,
    the context is that many lines joined by newlines, none of which
    holds a newline itself, and the line that names the answer sits at
    a position between 40% and 60% of the lines. *)
Theorem example_has_the_needle (st : session) (g : rng) (n : N) :
  In n sizes ->
  match example_size st with Some m => m | None => 1000%N end = n ->
  exists st' g' drawn position lines,
    load_example next st g = Done (st', g')
    /\ (1000000 <= drawn <= 9999999)%N
    /\ example_answer st' = Some (str_of_N drawn)
    /\ example_num_lines st' = Some n
    /\ query_input st' = lit "I'm looking for a magic number. What is it?"
    /\ context_input st' = join nl lines
    /\ List.length lines = N.to_nat n
    /\ Forall one_line lines
    /\ nth_error lines (N.to_nat position)
       = Some (lit "The magic number is " ++ str_of_N drawn)
    /\ (4 * n <= 10 * position <= 6 * n)%N.
Proof.
  intros I Hn.
  assert (B : exists low high,
             int_times n float_0_4 = Some low
             /\ int_times n float_0_6 = Some high
             /\ (10 * low = 4 * Z.of_N n)%Z
             /\ (10 * high = 6 * Z.of_N n)%Z
             /\ (0 < n)%N).
  { clear Hn. unfold sizes in I. simpl in I.
    destruct I as [I | [I | [I | [I | [I | []]]]]]; subst n;
      do 2 eexists; (split; [vm_compute; reflexivity |]);
      (split; [vm_compute; reflexivity |]); repeat split; reflexivity. }
  destruct B as (low & high & Hl & Hh & El & Eh & Pn).
  destruct (@load_example_spec st g n low high Hn Hl Hh)
    as (st' & g' & drawn & position & lines & R & Bd & A & NL & Q & X & L & F & P & Bp);
    [lia | lia |].
  exists st', g', drawn, position, lines.
  repeat (split; [assumption |]). lia.
Qed.

(** X18.  On an example of size 0 [load_example] fails: the position
    drawn is 0 and there is no line to replace, so the assignment
    raises [IndexError]. *)
Theorem empty_example_fails (st : session) (g : rng) :
  example_size st = Some 0%N ->
  load_example next st g = Failed IndexError.
Proof.
  intros H. unfold load_example.
  destruct (@randint_spec 1000000 9999999 g) as (x & R & _); [lia |].
  rewrite R, H. simpl filler.
  change (int_times 0 float_0_4) with (Some 0%Z).
  change (int_times 0 float_0_6) with (Some 0%Z).
  destruct (@randint_spec 0 0 (snd (next g))) as (y & R2 & _); [lia |].
  simpl Z.to_N. rewrite R2. reflexivity.
Qed.

End LoadExample.

(** * The added properties on the sample instance *)

Lemma logger_holds_last_query_witness :
  StreamlitLogger.query
    (@logged_all Demo.steady
       [ query_started (lit "a"); messages_listed []; query_started (lit "b");
         response_logged (lit "r") false; answer_logged (lit "r") ]
       StreamlitLogger.init)
  = lit "b".
Proof.
  apply (@logger_holds_last_query Demo.steady
           [ query_started (lit "a"); messages_listed [] ]
           [ response_logged (lit "r") false; answer_logged (lit "r") ]
           (lit "b") StreamlitLogger.init).
  reflexivity.
Defined.


Lemma transport_fault_ends_run_witness :
  exists s2,
    Demo.run [lit "think"] 5 Demo.ctx (Some Demo.q)
      = (Raise (@TransportFault (Demo.collaborators [lit "think"])
                  (lit "no response")), s2)
    /\ List.length (messages s2) = 2.
Proof.
  destruct (@transport_fault_ends_run (Demo.collaborators [lit "think"]) Demo.ctx
              (Some Demo.q) (Demo.rlm [lit "think"] 5) (None, lit "ctx") 1 (Some 0)
              (snd (@for_iteration_in (Demo.collaborators [lit "think"])
                      (Some Demo.q) (seq 0 1) None (Demo.ready [lit "think"] 5)))
              [] (lit "no response"))
    as (s2 & R & _ & Hm & _).
  - reflexivity.
  - vm_compute. lia.
  - vm_compute. reflexivity.
  - vm_compute. reflexivity.
  - exists s2. split; [exact R |]. rewrite Hm. vm_compute. reflexivity.
Defined.

Lemma forced_request_fault_witness :
  exists s2,
    Demo.run [lit "think"] 1 Demo.ctx (Some Demo.q)
      = (Raise (@TransportFault (Demo.collaborators [lit "think"])
                  (lit "no response")), s2)
    /\ List.length (messages s2) = 3.
Proof.
  destruct (@forced_request_fault (Demo.collaborators [lit "think"]) Demo.ctx
              (Some Demo.q) (Demo.rlm [lit "think"] 1) (None, lit "ctx") 0 (Some 0)
              (snd (@for_iteration_in (Demo.collaborators [lit "think"])
                      (Some Demo.q) (seq 0 1) None (Demo.ready [lit "think"] 1)))
              [] (lit "no response"))
    as (s2 & R & Hm & _).
  - reflexivity.
  - reflexivity.
  - vm_compute. reflexivity.
  - vm_compute. reflexivity.
  - exists s2. split; [exact R |]. rewrite Hm. vm_compute. reflexivity.
Defined.

Lemma nonpositive_bound_raises_witness :
  fst (Demo.run Demo.decided (-3) Demo.ctx (Some Demo.q))
  = Raise (UnboundLocalError (lit "iteration")).
Proof.
  unfold Demo.run.
  rewrite (@nonpositive_bound_raises (Demo.collaborators Demo.decided) Demo.ctx
             (Some Demo.q) (Demo.rlm Demo.decided (-3)) (None, lit "ctx") eq_refl).
  - reflexivity.
  - simpl. lia.
Defined.

Lemma returned_answer_is_logged_witness :
  exists earlier announced,
    StreamlitLogger.steps
      (st_logger (snd (Demo.run Demo.decided 5 Demo.ctx (Some Demo.q))))
    = earlier
        ++ [StreamlitLogger.final_step ([127919%N] ++ lit " FINAL ANSWER")
              (lit "42`print(1)") true]
    /\ StreamlitLogger.status_placeholder
         (st_logger (snd (Demo.run Demo.decided 5 Demo.ctx (Some Demo.q))))
       = announced
           ++ [StreamlitLogger.success
                 ([127919%N] ++ lit " **Final answer found!**")].
Proof.
  apply (@returned_answer_is_logged (Demo.collaborators Demo.decided) Demo.ctx
           (Some Demo.q) (Demo.rlm Demo.decided 5)).
  vm_compute. reflexivity.
Defined.

Lemma failures_of_a_run_witness :
  exists tf,
    fst (Demo.run [] 5 Demo.ctx (Some Demo.q))
    = Raise (@TransportFault (Demo.collaborators []) tf).
Proof.
  destruct (@failures_of_a_run (Demo.collaborators []) Demo.ctx (Some Demo.q)
              (Demo.rlm [] 5)
              (snd (Demo.run [] 5 Demo.ctx (Some Demo.q)))
              (@TransportFault (Demo.collaborators []) (lit "no response")))
    as [(pf & P & _) | [(tf & E) | (E & _)]].
  - vm_compute. reflexivity.
  - vm_compute in P. discriminate P.
  - exists (lit "no response"). vm_compute. reflexivity.
  - discriminate E.
Defined.

Lemma example_has_the_needle_witness :
  exists st' g',
    Example.load_example (fun g : N => (g, (g + 1)%N))
      {| Example.example_size := None;
         Example.context_input := [];
         Example.query_input := [];
         Example.example_answer := None;
         Example.example_num_lines := None |} 0%N
    = Example.Done (st', g')
    /\ Example.example_num_lines st' = Some 1000%N.
Proof.
  destruct (@example_has_the_needle N (fun g : N => (g, (g + 1)%N))
              {| Example.example_size := None;
                 Example.context_input := [];
                 Example.query_input := [];
                 Example.example_answer := None;
                 Example.example_num_lines := None |} 0%N 1000%N)
    as (st' & g' & drawn & position & lines & R & _ & _ & NL & _).
  - simpl. auto.
  - reflexivity.
  - exists st', g'. split; [exact R | exact NL].
Defined.

Lemma empty_example_fails_witness :
  Example.load_example (fun g : N => (g, (g + 1)%N))
    {| Example.example_size := Some 0%N;
       Example.context_input := [];
       Example.query_input := [];
       Example.example_answer := None;
       Example.example_num_lines := None |} 0%N
  = Example.Failed Example.IndexError.
Proof.
  apply (@empty_example_fails N (fun g : N => (g, (g + 1)%N))). reflexivity.
Defined.
